(** * Backend-Social-Media-Platform: error envelope, async boundary adapter,
      user credential lifecycle and token issuance.

    A shallow embedding of
      - src/utils/ApiError.js      (module [ApiError]),
      - src/utils/asyncHandler.js  (module [AsyncHandler]),
      - the user model             (module [User]),
    together with the properties the specification states about them.

    The libraries the code calls (bcrypt, jsonwebtoken, the document
    mapper) are not part of the repository.  Their pure primitives are
    taken as section variables; the little control flow of theirs that the
    properties depend on is written out as definitions and marked as such. *)

From Stdlib Require Import ZArith Ascii String List Bool Lia.
From stdpp Require Import base option strings gmap list.

Set Warnings "-register-all".
Local Open Scope Z_scope.

(** ** JavaScript values *)

Module JS.

(** The fragment of JavaScript values the three files manipulate. *)
Inductive JSVal : Type :=
| VUndefined
| VNull
| VBool (b : bool)
| VNum (n : Z)
| VStr (s : string)
| VArr (l : list JSVal).

(** [ToBoolean]: what an [if (x)] tests. *)
Definition truthy (v : JSVal) : bool :=
  match v with
  | VUndefined | VNull => false
  | VBool b => b
  | VNum n => negb (n =? 0)
  | VStr s => negb (bool_decide (s = ""))
  | VArr _ => true
  end.

(** A parameter written [x = d] takes [d] exactly when the argument is
    [undefined], which is also what an omitted argument is. *)
Definition default_arg (d v : JSVal) : JSVal :=
  match v with
  | VUndefined => d
  | _ => v
  end.

(** How a call ends: with a value, or by throwing one. *)
Inductive completion (A : Type) : Type :=
| Normal (a : A)
| Throw (e : JSVal).
Arguments Normal {A} a.
Arguments Throw {A} e.

(** How a promise ends up: fulfilled, rejected, or never settled. *)
Inductive settlement : Type :=
| Fulfilled (v : JSVal)
| Rejected (e : JSVal)
| Pending.

(** A string is the sequence of bytes of its UTF-8 encoding. *)
Definition code (c : ascii) : Z := Z.of_N (N_of_ascii c).

Definition bytes (s : string) : list Z := code <$> list_ascii_of_string s.

Definition text (l : list Z) : string :=
  string_of_list_ascii ((λ x, ascii_of_N (Z.to_N x)) <$> l).

Definition continuation_byte (b : Z) : bool := (0x80 <=? b) && (b <=? 0xbf).

(** Well-formed UTF-8 without the character U+0000: what a variable of the
    process environment can hold. *)
Fixpoint environment_text (l : list Z) : bool :=
  match l with
  | [] => true
  | a :: l1 =>
      if (0x01 <=? a) && (a <=? 0x7f) then environment_text l1
      else
        match l1 with
        | [] => false
        | b :: l2 =>
            if (0xc2 <=? a) && (a <=? 0xdf) then
              continuation_byte b && environment_text l2
            else
              match l2 with
              | [] => false
              | c :: l3 =>
                  if (0xe0 <=? a) && (a <=? 0xef) then
                    (if a =? 0xe0 then (0xa0 <=? b) && (b <=? 0xbf)
                     else if a =? 0xed then (0x80 <=? b) && (b <=? 0x9f)
                     else continuation_byte b)
                    && continuation_byte c && environment_text l3
                  else
                    match l3 with
                    | [] => false
                    | d :: l4 =>
                        (0xf0 <=? a) && (a <=? 0xf4)
                        && (if a =? 0xf0 then (0x90 <=? b) && (b <=? 0xbf)
                            else if a =? 0xf4 then (0x80 <=? b) && (b <=? 0x8f)
                            else continuation_byte b)
                        && continuation_byte c && continuation_byte d
                        && environment_text l4
                    end
              end
        end
  end.

End JS.
Import JS.

(** ** src/utils/ApiError.js *)

Module ApiError.

(** An instance: its own properties by name. *)
Abbreviation object := (gmap string JSVal).

Section Envelope.

(** The language's [ToString], which the built-in [Error] applies to the
    message it is given. *)
Variable ToString : JSVal → string.

(** What [super(message)] leaves behind: the built-in constructor stores
    the message as a string (unless it is [undefined]) and the engine's
    own trace, [engine_trace], taken at [new]. *)
Definition Error_constructor (engine_trace : string) (message : JSVal) : object :=
  <["stack" := VStr engine_trace]>
    (match message with
     | VUndefined => ∅
     | _ => <["message" := VStr (ToString message)]> ∅
     end).

(** [Error.captureStackTrace(this, this.constructor)]: the trace of the
    construction site, the frames from the constructor upwards left out.
    [site_trace] is that trace. *)
Definition captureStackTrace (site_trace : string) (this : object) : object :=
  <["stack" := VStr site_trace]> this.

(** [constructor(statusCode, message = "Something went wrong", errors = [], stack = "")]. *)
Definition constructor (engine_trace site_trace : string)
  (statusCode message errors stack : JSVal) : object :=
  let message := default_arg (VStr "Something went wrong") message in
  let errors := default_arg (VArr []) errors in
  let stack := default_arg (VStr "") stack in
  let this := Error_constructor engine_trace message in
  let this := <["statusCode" := statusCode]> this in
  let this := <["data" := VNull]> this in
  let this := <["message" := message]> this in
  let this := <["success" := VBool false]> this in
  let this := <["errors" := errors]> this in
  if truthy stack
  then <["stack" := stack]> this
  else captureStackTrace site_trace this.

(** C6. Whatever the four arguments are, the constructed instance exposes
    [statusCode] equal to the given status, [message] equal to the given
    message, [success] equal to [false], [data] equal to [null] and
    [errors] equal to the given sequence; an omitted ([undefined]) message
    is replaced by "Something went wrong" and omitted errors by the empty
    array.  This holds in both branches of the trace selection. *)
Lemma constructor_fields engine_trace site_trace statusCode message errors stack :
  let this := constructor engine_trace site_trace statusCode message errors stack in
  let bare := constructor engine_trace site_trace statusCode VUndefined VUndefined stack in
  this !! "statusCode" = Some statusCode
  ∧ this !! "message" = Some (match message with
                              | VUndefined => VStr "Something went wrong"
                              | _ => message
                              end)
  ∧ this !! "success" = Some (VBool false)
  ∧ this !! "data" = Some VNull
  ∧ this !! "errors" = Some (match errors with
                             | VUndefined => VArr []
                             | _ => errors
                             end)
  ∧ bare !! "message" = Some (VStr "Something went wrong")
  ∧ bare !! "errors" = Some (VArr []).
Proof.
  assert (∀ d v, match v with VUndefined => d | _ => v end = default_arg d v) as Hd
    by (by intros d []).
  unfold constructor, captureStackTrace, Error_constructor; cbv zeta.
  rewrite !Hd. cbn [default_arg].
  generalize (default_arg (VStr "Something went wrong") message)
             (default_arg (VArr []) errors).
  intros m e. destruct (truthy _); by simplify_map_eq.
Qed.

(** X1. The trace an instance carries: a truthy [stack] argument is kept
    as it is; an omitted, empty or otherwise falsy one is replaced by the
    trace captured at the construction site.  The trace the built-in
    constructor took never survives. *)
Lemma constructor_stack engine_trace site_trace statusCode message errors stack :
  constructor engine_trace site_trace statusCode message errors stack !! "stack"
  = Some (if truthy stack then stack else VStr site_trace).
Proof.
  unfold constructor, captureStackTrace.
  assert (truthy (default_arg (VStr "") stack) = truthy stack) as -> by by destruct stack.
  destruct (truthy stack) eqn:Ht; simplify_map_eq; [|done].
  by destruct stack.
Qed.

(** X2. An instance has the six own properties the constructor assigns
    and no other, whatever it is constructed from. *)
Lemma constructor_own_properties engine_trace site_trace statusCode message errors stack :
  dom (constructor engine_trace site_trace statusCode message errors stack)
  = ({[ "statusCode"; "data"; "message"; "success"; "errors"; "stack" ]} : gset string).
Proof.
  unfold constructor, captureStackTrace, Error_constructor.
  destruct (truthy _), (default_arg (VStr "Something went wrong") message);
    rewrite !dom_insert_L, ?dom_empty_L; set_solver.
Qed.

End Envelope.

(** [new ApiError(404)]: the fallback message, no sub-errors, the trace of
    the construction site. *)
Example not_found_defaults ToString :
  let e := constructor ToString "at new ApiError" "at handler"
             (VNum 404) VUndefined VUndefined VUndefined in
  e !! "statusCode" = Some (VNum 404)
  ∧ e !! "message" = Some (VStr "Something went wrong")
  ∧ e !! "errors" = Some (VArr [])
  ∧ e !! "stack" = Some (VStr "at handler").
Proof. by vm_compute. Qed.

(** [new ApiError(409, "User already exists", ["email"])] *)
Example conflict_given ToString :
  let e := constructor ToString "at new ApiError" "at handler"
             (VNum 409) (VStr "User already exists") (VArr [VStr "email"]) VUndefined in
  e !! "message" = Some (VStr "User already exists")
  ∧ e !! "errors" = Some (VArr [VStr "email"])
  ∧ e !! "success" = Some (VBool false)
  ∧ e !! "data" = Some VNull.
Proof. by vm_compute. Qed.

End ApiError.

(** ** src/utils/asyncHandler.js *)

Module AsyncHandler.

Section Adapter.

(** [W] is everything a handler can act on: the response under
    construction, the store, the log.  [Req] and [Res] are the framework's
    request and response objects. *)
Context {W Req Res : Type}.

(** A call that may act on the world and may throw. *)
Definition Eff (A : Type) : Type := W → completion A * W.

(** A promise, seen from the event loop: the rest of the computation that
    settles it.  It runs after the synchronous call that created it has
    returned; a promise that is already settled acts on nothing. *)
Definition promise : Type := W → settlement * W.

(** What a handler hands back when it does not throw: a plain value, or a
    promise (what an [async] function always returns). *)
Inductive returned : Type :=
| Plain (v : JSVal)
| Prom (p : promise).

(** The continuation [next], and a handler taking [(req, res, next)]. *)
Definition continuation : Type := JSVal → Eff JSVal.
Definition handler : Type := Req → Res → continuation → Eff returned.

(** [Promise.resolve(x)]: a promise is returned as it is, any other value
    becomes a promise already fulfilled with it. *)
Definition Promise_resolve (x : returned) : promise :=
  match x with
  | Plain v => λ w, (Fulfilled v, w)
  | Prom p => p
  end.

(** [p.catch(onRejected)]: the derived promise.  A fulfilment passes
    through; on a rejection the callback runs, and its own completion
    settles the derived promise. *)
Definition catch (p : promise) (onRejected : JSVal → Eff JSVal) : promise :=
  λ w,
    match p w with
    | (Fulfilled v, w1) => (Fulfilled v, w1)
    | (Rejected e, w1) =>
        match onRejected e w1 with
        | (Normal v, w2) => (Fulfilled v, w2)
        | (Throw e', w2) => (Rejected e', w2)
        end
    | (Pending, w1) => (Pending, w1)
    end.

(** [asyncHandler(requestHandler)].  The argument of [Promise.resolve] is
    evaluated first, so a handler that throws ends the call there.  The
    call itself returns [undefined]; the promise it leaves with the event
    loop is returned here so that the loop can be run on it. *)
Definition asyncHandler (requestHandler : handler) : Req → Res → continuation → Eff promise :=
  λ req res next w,
    match requestHandler req res next w with
    | (Throw e, w1) => (Throw e, w1)
    | (Normal x, w1) =>
        (Normal (catch (Promise_resolve x) (λ err, next err)), w1)
    end.

(** What the framework observes of one dispatch: whether the call threw
    at it, whether a rejection was left with nobody to handle it, and the
    world once the event loop has run dry. *)
Record observed : Type := Observed {
  thrown : option JSVal;
  unhandled : option JSVal;
  final : W
}.

(** One dispatch of a wrapped handler: the synchronous call, then the
    event loop on the promise it left behind. *)
Definition dispatch (wrapped : Req → Res → continuation → Eff promise)
  (req : Req) (res : Res) (next : continuation) (w : W) : observed :=
  match wrapped req res next w with
  | (Throw e, w1) => Observed (Some e) None w1
  | (Normal p, w1) =>
      match p w1 with
      | (Rejected e, w2) => Observed None (Some e) w2
      | (_, w2) => Observed None None w2
      end
  end.

End Adapter.

(** A world that only records the arguments [next] was called with, as a
    test double would. *)
Definition recording_next : @continuation (list JSVal) :=
  λ err log, (Normal VUndefined, log ++ [err]).

(** [async (req, res, next) => { await op(); }] where [op] rejects with [e]. *)
Definition rejecting_handler (e : JSVal) : @handler (list JSVal) unit unit :=
  λ _ _ _ log, (Normal (Prom (λ log', (Rejected e, log'))), log).

(** [(req, res, next) => { throw e; }] *)
Definition throwing_handler (e : JSVal) : @handler (list JSVal) unit unit :=
  λ _ _ _ log, (Throw e, log).

(** [async (req, res, next) => { return v; }] *)
Definition fulfilling_handler (v : JSVal) : @handler (list JSVal) unit unit :=
  λ _ _ _ log, (Normal (Prom (λ log', (Fulfilled v, log'))), log).

(** [(req, res, next) => v], a handler that is not [async]. *)
Definition plain_handler (v : JSVal) : @handler (list JSVal) unit unit :=
  λ _ _ _ log, (Normal (Plain v), log).

(** [async (req, res, next) => { next(); }], a middleware that passes on. *)
Definition passing_handler : @handler (list JSVal) unit unit :=
  λ _ _ next log, (Normal (Prom (λ log', (Fulfilled VUndefined, (next VUndefined log').2))), log).

Section AdapterFacts.
Context {W Req Res : Type}.
Implicit Types (h : @handler W Req Res) (next : @continuation W) (w : W).

(** X3. A rejection reaches [next], once, with the very value, after
    whatever the handler did itself; the call does not throw, and when
    [next] returns nothing is left unhandled. *)
Lemma asyncHandler_rejection h req res next w p w1 e w2 :
  h req res next w = (Normal (Prom p), w1) →
  p w1 = (Rejected e, w2) →
  thrown (dispatch (asyncHandler h) req res next w) = None
  ∧ final (dispatch (asyncHandler h) req res next w) = (next e w2).2
  ∧ (∀ v, (next e w2).1 = Normal v →
          unhandled (dispatch (asyncHandler h) req res next w) = None).
Proof.
  intros Hh Hp. unfold dispatch, asyncHandler, catch. rewrite Hh. simpl. rewrite Hp.
  destruct (next e w2) as [[v|e'] w3] eqn:Hn; simpl; repeat split; try done.
Qed.

(** X5. A handler that throws makes the wrapped function throw the same
    value at its caller: nothing catches it, [next] is not applied, and the
    world is the one the handler left when it threw. *)
Lemma asyncHandler_throw h req res next w e w1 :
  h req res next w = (Throw e, w1) →
  dispatch (asyncHandler h) req res next w = Observed (Some e) None w1.
Proof. intros Hh. unfold dispatch, asyncHandler. by rewrite Hh. Qed.

(** X4. When [next] itself throws on being handed the rejection, the
    value it throws is left as an unhandled rejection: the call has
    returned already and nothing catches the derived promise. *)
Lemma asyncHandler_next_throws h req res next w p w1 e w2 e' w3 :
  h req res next w = (Normal (Prom p), w1) →
  p w1 = (Rejected e, w2) →
  next e w2 = (Throw e', w3) →
  dispatch (asyncHandler h) req res next w = Observed None (Some e') w3.
Proof.
  intros Hh Hp Hn. unfold dispatch, asyncHandler, catch. rewrite Hh. simpl.
  by rewrite Hp, Hn.
Qed.

(** C10. When the handler's invocation completes successfully (it returns
    a plain value without throwing, or the promise it returns fulfils), the
    wrapped function does not throw, leaves no rejection behind, and the
    world at the end is the one the handler's own computation produced:
    the adapter has applied [next] zero times, whatever [next] is. *)
Lemma asyncHandler_success_leaves_next_alone h req res next w x w1 v w2 :
  h req res next w = (Normal x, w1) →
  Promise_resolve x w1 = (Fulfilled v, w2) →
  dispatch (asyncHandler h) req res next w = Observed None None w2.
Proof.
  intros Hh Hp. unfold dispatch, asyncHandler, catch. rewrite Hh. by rewrite Hp.
Qed.

End AdapterFacts.

(** C1, at the failing input: a handler that throws synchronously.  The
    wrapped function throws the value at its caller and the recording
    continuation has seen no call, where the claim has the value forwarded
    to [next] once and nothing thrown. *)
Lemma asyncHandler_synchronous_throw_escapes :
  dispatch (asyncHandler (throwing_handler (VStr "boom"))) () () recording_next []
  = Observed (Some (VStr "boom")) None [].
Proof. reflexivity. Qed.

(** The asynchronous half of C1 at a concrete input: the rejection value
    is recorded once and nothing is thrown or left unhandled. *)
Lemma asyncHandler_rejection_recorded_once :
  dispatch (asyncHandler (rejecting_handler (VStr "boom"))) () () recording_next []
  = Observed None None [VStr "boom"].
Proof. reflexivity. Qed.

(** An [async] handler that returns: the recording continuation has seen
    no call. *)
Lemma asyncHandler_success_async_sample :
  dispatch (asyncHandler (fulfilling_handler (VNum 1))) () () recording_next []
  = Observed None None [].
Proof.
  apply (asyncHandler_success_leaves_next_alone
           (fulfilling_handler (VNum 1)) () () recording_next []
           (Prom (λ log, (Fulfilled (VNum 1), log))) [] (VNum 1) []);
    reflexivity.
Defined.

(** The calls a handler makes itself are its own: a middleware that passes
    on by calling [next()] is seen calling it once, the adapter adds none. *)
Lemma asyncHandler_passing_sample :
  dispatch (asyncHandler passing_handler) () () recording_next []
  = Observed None None [VUndefined].
Proof. reflexivity. Qed.

(** The same for a handler that is not [async] and returns a value. *)
Lemma asyncHandler_success_plain_sample :
  dispatch (asyncHandler (plain_handler (VNum 1))) () () recording_next []
  = Observed None None [].
Proof. reflexivity. Qed.

(** A continuation that records the call and then throws. *)
Definition failing_next : @continuation (list JSVal) :=
  λ err log, (Throw (VStr "error handler failed"), log ++ [err]).

(** A handler that has already answered when its promise rejects. *)
Definition late_rejecting_handler (e : JSVal) : @handler (list JSVal) unit unit :=
  λ _ _ _ log,
    (Normal (Prom (λ log', (Rejected e, log' ++ [VStr "sent"]))), log ++ [VStr "started"]).

Lemma asyncHandler_rejection_sample :
  thrown (dispatch (asyncHandler (late_rejecting_handler (VNum 404))) () ()
            recording_next []) = None
  ∧ final (dispatch (asyncHandler (late_rejecting_handler (VNum 404))) () ()
             recording_next [])
    = [VStr "started"; VStr "sent"; VNum 404]
  ∧ (∀ v, (recording_next (VNum 404) [VStr "started"; VStr "sent"]).1 = Normal v →
          unhandled (dispatch (asyncHandler (late_rejecting_handler (VNum 404))) () ()
                       recording_next []) = None).
Proof.
  apply (asyncHandler_rejection (late_rejecting_handler (VNum 404)) () ()
           recording_next []
           (λ log', (Rejected (VNum 404), log' ++ [VStr "sent"]))
           [VStr "started"] (VNum 404) [VStr "started"; VStr "sent"]);
    reflexivity.
Defined.

Lemma asyncHandler_next_throws_sample :
  dispatch (asyncHandler (late_rejecting_handler (VNum 404))) () () failing_next []
  = Observed None (Some (VStr "error handler failed"))
      [VStr "started"; VStr "sent"; VNum 404].
Proof.
  apply (asyncHandler_next_throws (late_rejecting_handler (VNum 404)) () ()
           failing_next []
           (λ log', (Rejected (VNum 404), log' ++ [VStr "sent"]))
           [VStr "started"] (VNum 404) [VStr "started"; VStr "sent"]
           (VStr "error handler failed"));
    reflexivity.
Defined.

Lemma asyncHandler_throw_sample :
  dispatch (asyncHandler (throwing_handler (VNum 500))) () () recording_next
    [VStr "earlier"]
  = Observed (Some (VNum 500)) None [VStr "earlier"].
Proof.
  apply (asyncHandler_throw (throwing_handler (VNum 500)) () () recording_next
           [VStr "earlier"] (VNum 500) [VStr "earlier"]).
  reflexivity.
Defined.

End AsyncHandler.

(** ** HMAC-SHA256

    The signature jsonwebtoken computes for HS256 (FIPS 180-4, RFC 2104),
    on lists of bytes. *)

Module SHA256.

(** Words are 32-bit integers held in [Z]; bytes are integers below 256. *)
Definition mask32 : Z := 0xffffffff.
Definition add32 (a b : Z) : Z := Z.land (a + b) mask32.
Definition not32 (a : Z) : Z := Z.lxor a mask32.
Definition rotr (n x : Z) : Z :=
  Z.lor (Z.shiftr x n) (Z.land (Z.shiftl x (32 - n)) mask32).

Definition Ch (x y z : Z) : Z := Z.lxor (Z.land x y) (Z.land (not32 x) z).
Definition Maj (x y z : Z) : Z :=
  Z.lxor (Z.lxor (Z.land x y) (Z.land x z)) (Z.land y z).
Definition Sigma0 (x : Z) : Z := Z.lxor (Z.lxor (rotr 2 x) (rotr 13 x)) (rotr 22 x).
Definition Sigma1 (x : Z) : Z := Z.lxor (Z.lxor (rotr 6 x) (rotr 11 x)) (rotr 25 x).
Definition sigma0 (x : Z) : Z := Z.lxor (Z.lxor (rotr 7 x) (rotr 18 x)) (Z.shiftr x 3).
Definition sigma1 (x : Z) : Z := Z.lxor (Z.lxor (rotr 17 x) (rotr 19 x)) (Z.shiftr x 10).

(** The constants are fractional parts of roots of the first primes:
    [root k n] is the integer part of the [k]-th root of [n], found bit by
    bit from the top. *)
Fixpoint root_bits (k : Z) (n : Z) (i : nat) (r : Z) : Z :=
  match i with
  | O => r
  | S j =>
      let candidate := r + 2 ^ Z.of_nat j in
      root_bits k n j (if candidate ^ k <=? n then candidate else r)
  end.

Definition root (k n : Z) : Z := root_bits k n 40 0.

(** The first 32 bits of the fractional part of the [k]-th root of [p]. *)
Definition fractional (k p : Z) : Z := Z.land (root k (p * 2 ^ (32 * k))) mask32.

Definition is_prime (n : Z) : bool :=
  forallb (λ m, negb (n mod m =? 0)) (seqZ 2 (n - 2)).

Definition primes (count : nat) : list Z :=
  take count (List.filter is_prime (seqZ 2 400)).

(** The round constants, from the cube roots of the first 64 primes, and
    the initial chaining value, from the square roots of the first 8. *)
Definition K : list Z := Eval vm_compute in fractional 3 <$> primes 64.

Definition H0 : list Z := Eval vm_compute in fractional 2 <$> primes 8.

Definition word_of_bytes (b3 b2 b1 b0 : Z) : Z :=
  Z.lor (Z.lor (Z.shiftl b3 24) (Z.shiftl b2 16)) (Z.lor (Z.shiftl b1 8) b0).

Definition bytes_of_word (w : Z) : list Z :=
  [ Z.land (Z.shiftr w 24) 0xff; Z.land (Z.shiftr w 16) 0xff;
    Z.land (Z.shiftr w 8) 0xff; Z.land w 0xff ].

Fixpoint words (bytes : list Z) : list Z :=
  match bytes with
  | b3 :: b2 :: b1 :: b0 :: rest => word_of_bytes b3 b2 b1 b0 :: words rest
  | _ => []
  end.

(** The message followed by the bit 1, zeros up to 56 modulo 64 bytes, and
    the length in bits as a 64-bit big-endian integer. *)
Definition pad (msg : list Z) : list Z :=
  let n := Z.of_nat (length msg) in
  let zeros := Z.to_nat ((55 - n) mod 64) in
  let bits := 8 * n in
  msg ++ [0x80] ++ replicate zeros 0
      ++ bytes_of_word (Z.land (Z.shiftr bits 32) mask32)
      ++ bytes_of_word (Z.land bits mask32).

(** The message schedule, latest word first: [w] holds W(t-1), W(t-2), ... *)
Fixpoint schedule (n : nat) (w : list Z) : list Z :=
  match n with
  | O => w
  | S n' =>
      let x := add32 (add32 (sigma1 (nth 1 w 0)) (nth 6 w 0))
                     (add32 (sigma0 (nth 14 w 0)) (nth 15 w 0)) in
      schedule n' (x :: w)
  end.

Record state : Type := State { a : Z; b : Z; c : Z; d : Z; e : Z; f : Z; g : Z; h : Z }.

Definition round (s : state) (kw : Z * Z) : state :=
  let t1 := add32 (add32 (add32 (h s) (Sigma1 (e s))) (Ch (e s) (f s) (g s)))
                  (add32 kw.1 kw.2) in
  let t2 := add32 (Sigma0 (a s)) (Maj (a s) (b s) (c s)) in
  State (add32 t1 t2) (a s) (b s) (c s) (add32 (d s) t1) (e s) (f s) (g s).

Definition state_of (l : list Z) : state :=
  State (nth 0 l 0) (nth 1 l 0) (nth 2 l 0) (nth 3 l 0)
        (nth 4 l 0) (nth 5 l 0) (nth 6 l 0) (nth 7 l 0).

Definition list_of (s : state) : list Z :=
  [a s; b s; c s; d s; e s; f s; g s; h s].

(** One 64-byte block compressed into the chaining value. *)
Definition compress (hv : list Z) (block : list Z) : list Z :=
  let w := rev (schedule 48 (rev (words block))) in
  let s := fold_left round (zip K w) (state_of hv) in
  zip_with add32 hv (list_of s).

Fixpoint blocks (n : nat) (hv : list Z) (bytes : list Z) : list Z :=
  match n with
  | O => hv
  | S n' =>
      match bytes with
      | [] => hv
      | _ => blocks n' (compress hv (take 64 bytes)) (drop 64 bytes)
      end
  end.

Definition hash (msg : list Z) : list Z :=
  let p := pad msg in
  mjoin (bytes_of_word <$> blocks (length p) H0 p).

(** HMAC (RFC 2104) over SHA-256, whose block is 64 bytes: a key longer
    than a block is replaced by its hash, then the key is filled with zeros
    to a block. *)
Definition key_block (key : list Z) : list Z :=
  let k := if (64 <? Z.of_nat (length key)) then hash key else key in
  k ++ replicate (64 - length k)%nat 0.

Definition hmac (key msg : list Z) : list Z :=
  let k := key_block key in
  hash ((Z.lxor 0x5c <$> k) ++ hash ((Z.lxor 0x36 <$> k) ++ msg)).

Definition hex_digit (x : Z) : ascii :=
  ascii_of_N (Z.to_N (if x <? 10 then 48 + x else 87 + x)).

Definition hex (l : list Z) : string :=
  string_of_list_ascii (mjoin ((λ x, [hex_digit (Z.shiftr x 4); hex_digit (Z.land x 15)]) <$> l)).

Example constants :
  length K = 64%nat ∧ K !! 0%nat = Some 0x428a2f98 ∧ K !! 63%nat = Some 0xc67178f2
  ∧ length H0 = 8%nat ∧ H0 !! 0%nat = Some 0x6a09e667 ∧ H0 !! 7%nat = Some 0x5be0cd19.
Proof. vm_compute. done. Qed.

(** Known answers: FIPS 180-4 ("abc") and RFC 4231 (test cases 2 and 6,
    the latter with a key longer than a block). *)
Example hash_abc :
  hex (hash (bytes "abc"))
  = "ba7816bf8f01cfea414140de5dae2223b00361a396177a9cb410ff61f20015ad".
Proof. vm_compute. reflexivity. Qed.

Example hmac_rfc4231_2 :
  hex (hmac (bytes "Jefe") (bytes "what do ya want for nothing?"))
  = "5bdcc146bf60754e6a042426089575c75a003f089d2739839dec58b964ec3843".
Proof. vm_compute. reflexivity. Qed.

Example hmac_rfc4231_6 :
  hex (hmac (replicate 131 0xaa)
         (bytes "Test Using Larger Than Block-Size Key - Hash Key First"))
  = "60e431591ee0b67f0d8a26aacbf5b77f8e0bc6213728c5140546040f0ee37f54".
Proof. vm_compute. reflexivity. Qed.

(** Two keys with the same key block sign every message alike. *)
Lemma hmac_key_block key1 key2 msg :
  key_block key1 = key_block key2 → hmac key1 msg = hmac key2 msg.
Proof. unfold hmac. by intros ->. Qed.

End SHA256.

(** ** The user model *)

Module User.

(** *** Strings

    A string is the sequence of bytes of its UTF-8 encoding.  The schema
    asks for two of the language's string methods as setters.
    [String.prototype.trim] is written out on the encoding.
    [String.prototype.toLowerCase] follows the Unicode case tables, which
    are not reproduced: it is a variable of the model, and
    [ascii_toLowerCase] is what it does to a string of ASCII characters. *)

Definition lower (c : ascii) : ascii :=
  let n := N_of_ascii c in
  if ((65 <=? n) && (n <=? 90))%N then ascii_of_N (n + 32) else c.

Fixpoint ascii_toLowerCase (s : string) : string :=
  match s with
  | EmptyString => EmptyString
  | String c s' => String (lower c) (ascii_toLowerCase s')
  end.

Fixpoint ascii_only (s : string) : bool :=
  match s with
  | EmptyString => true
  | String c s' => (code c <? 128) && ascii_only s'
  end.

(** The white space and the line terminators of the language, by the
    bytes of their encodings: U+0009 to U+000D and U+0020; U+00A0; U+1680,
    U+2000 to U+200A, U+2028, U+2029, U+202F, U+205F, U+3000 and U+FEFF. *)
Definition space1 (a : Z) : bool :=
  ((0x09 <=? a) && (a <=? 0x0d)) || (a =? 0x20).

Definition space2 (a b : Z) : bool := (a =? 0xc2) && (b =? 0xa0).

Definition space3 (a b c : Z) : bool :=
  ((a =? 0xe1) && (b =? 0x9a) && (c =? 0x80))
  || ((a =? 0xe2) && (b =? 0x80)
      && (((0x80 <=? c) && (c <=? 0x8a)) || (c =? 0xa8) || (c =? 0xa9) || (c =? 0xaf)))
  || ((a =? 0xe2) && (b =? 0x81) && (c =? 0x9f))
  || ((a =? 0xe3) && (b =? 0x80) && (c =? 0x80))
  || ((a =? 0xef) && (b =? 0xbb) && (c =? 0xbf)).

(** Drops the white space a string starts with; [two] and [three]
    recognise the encodings of two and of three bytes. *)
Fixpoint strip (two : Z → Z → bool) (three : Z → Z → Z → bool) (s : string) : string :=
  match s with
  | EmptyString => EmptyString
  | String a s1 =>
      if space1 (code a) then strip two three s1
      else
        match s1 with
        | EmptyString => s
        | String b s2 =>
            if two (code a) (code b) then strip two three s2
            else
              match s2 with
              | EmptyString => s
              | String c s3 =>
                  if three (code a) (code b) (code c) then strip two three s3 else s
              end
        end
  end.

Definition trimStart (s : string) : string := strip space2 space3 s.

(** The same from the end: on the reversed string, with the bytes of an
    encoding met last to first. *)
Definition trimEnd (s : string) : string :=
  String.rev (strip (λ b a, space2 a b) (λ c b a, space3 a b c) (String.rev s)).

(** [String.prototype.trim] *)
Definition trim (s : string) : string := trimEnd (trimStart s).

(** *** The salt of a hash *)

(** What the environment gives one call of [bcrypt.hash]: a fresh salt, or
    a failure of the generator or of the hashing itself. *)
Inductive entropy (Salt : Type) : Type :=
| Salted (salt : Salt)
| Failing (e : JSVal).
Arguments Salted {Salt} salt.
Arguments Failing {Salt} e.

Section Model.

(** [String.prototype.toLowerCase] *)
Variable toLowerCase : string → string.

(** Whether [crypto.createPrivateKey] reads a string as a private key;
    jsonwebtoken refuses such a string as the secret of an HS256
    signature. *)
Variable parses_as_private_key : string → bool.

(** *** The schema *)

(** The options of a [String] path that the schema sets. *)
Record StringOptions : Type := StringOpts {
  required : bool;
  unique : bool;
  lowercase : bool;
  trim_opt : bool;
  index : bool
}.

Inductive SchemaType : Type :=
| SString (o : StringOptions)
| SObjectIdArray (ref : string).

(** [new Schema({...}, { timestamps: true })], path by path, as the source
    writes it.  The mapper adds [_id] and [__v] of its own, and
    [createdAt] and [updatedAt] for the option [timestamps]; they are
    not string paths of this table. *)
Definition userSchema : list (string * SchemaType) :=
  [ ("username", SString (StringOpts true true true true true));
    ("email", SString (StringOpts true true true true false));
    ("fullName", SString (StringOpts true false false true true));
    ("avatar", SString (StringOpts true false false false false));
    ("coverImage", SString (StringOpts false false false false false));
    ("watchHistory", SObjectIdArray "Video");
    ("password", SString (StringOpts true false false false false));
    ("refreshToken", SString (StringOpts false false false false false)) ].

Fixpoint assoc {A : Type} (k : string) (l : list (string * A)) : option A :=
  match l with
  | [] => None
  | (k', a) :: l' => if bool_decide (k = k') then Some a else assoc k l'
  end.

(** The options of a string path of the schema. *)
Definition string_path (p : string) : option StringOptions :=
  match assoc p userSchema with
  | Some (SString o) => Some o
  | _ => None
  end.

(** The setters the options install: [trim] runs first, then [lowercase]. *)
Definition apply_setters (o : StringOptions) (v : string) : string :=
  let v := if trim_opt o then trim v else v in
  if lowercase o then toLowerCase v else v.

(** What the setters of a trimmed and lowercased path make of some
    string. *)
Definition normalised (s : string) : Prop := ∃ v, s = toLowerCase (trim v).

Definition paths_where (f : StringOptions → bool) : list string :=
  omap (λ '(p, t), match t with
                   | SString o => if f o then Some p else None
                   | _ => None
                   end) userSchema.

Definition required_paths : list string := paths_where required.
Definition unique_paths : list string := paths_where unique.

(** *** Documents and the collection

    The repository leaves documents, their change tracking and the
    collection to the document mapper (mongoose).  This part writes out
    the mapper's behaviour that the hook and the methods rely on. *)

(** A document in memory: its string paths by name (an absent path is
    [undefined]), the paths changed since it was last in step with the
    store, and whether it has ever been written. *)
Record Document : Type := mkDocument {
  _id : string;
  values : gmap string string;
  watchHistory : list string;
  modified : gset string;
  isNew : bool
}.

(** A record of the collection. *)
Record Stored : Type := mkStored {
  s_values : gmap string string;
  s_watchHistory : list string;
  createdAt : Z;
  updatedAt : Z
}.

Definition isModified (p : string) (d : Document) : bool :=
  bool_decide (p ∈ modified d).

(** [doc[p] = v] on a string path: the setters run, and the path is marked
    when the value changes.  A path the schema does not have is dropped. *)
Definition doc_set (p : string) (v : string) (d : Document) : Document :=
  match string_path p with
  | None => d
  | Some o =>
      let v' := apply_setters o v in
      if bool_decide (values d !! p = Some v') then d
      else mkDocument (_id d) (<[p := v']> (values d)) (watchHistory d)
                      ({[p]} ∪ modified d) (isNew d)
  end.

(** [new User(input)]: every string path of the schema that the input
    has is set on a fresh document.  [input] holds the string paths given
    to the constructor and [id] is the document's identifier, the one the
    caller gives or else the one the mapper draws. *)
Definition new_User (id : string) (input : gmap string string) : Document :=
  let vs := map_imap (λ p v, (λ o, apply_setters o v) <$> string_path p) input in
  mkDocument id vs [] (dom vs) true.

(** Every path that the schema both trims and lowercases holds a
    normalised value. *)
Definition identifiers_normalised (vs : gmap string string) : Prop :=
  ∀ p o v, string_path p = Some o → lowercase o = true → trim_opt o = true →
           vs !! p = Some v → normalised v.

Definition store_normalised (db : gmap string Stored) : Prop :=
  ∀ id r, db !! id = Some r → identifiers_normalised (s_values r).

(** A document read back from the collection. *)
Definition hydrate (id : string) (r : Stored) : Document :=
  mkDocument id (s_values r) (s_watchHistory r) ∅ false.

Definition findById (id : string) (db : gmap string Stored) : option Document :=
  hydrate id <$> db !! id.

(** *** The pre-save hook *)

(** The hook runs on [this], the document being saved, and is handed
    [next]; the calls it makes to [next] are recorded with their argument. *)
Record HookState : Type := mkHookState {
  this : Document;
  next_calls : list JSVal
}.

(** The body of the hook: it acts on its state and may throw. *)
Definition Hook (A : Type) : Type := HookState → completion A * HookState.

#[global] Instance hook_ret : MRet Hook := λ A a s, (Normal a, s).
#[global] Instance hook_bind : MBind Hook := λ A B f m s,
  match m s with
  | (Normal a, s') => f a s'
  | (Throw e, s') => (Throw e, s')
  end.

Definition this_isModified (p : string) : Hook bool :=
  λ s, (Normal (isModified p (this s)), s).

Definition this_get (p : string) : Hook (option string) :=
  λ s, (Normal (values (this s) !! p), s).

Definition this_set (p : string) (v : string) : Hook unit :=
  λ s, (Normal (), mkHookState (doc_set p v (this s)) (next_calls s)).

Definition call_next (arg : JSVal) : Hook JSVal :=
  λ s, (Normal VUndefined, mkHookState (this s) (next_calls s ++ [arg])).

(** [await p]: the value of a fulfilled promise, the reason of a rejected
    one thrown. *)
Definition await {A : Type} (p : completion A) : Hook A := λ s, (p, s).

Section Credentials.

(** bcrypt's two primitives: the hash of a string under a salt at a cost,
    and the test of a candidate against a hash. *)
Context {Salt : Type}.
Variable hash_with : Salt → string → Z → string.
Variable compare_with : string → string → bool.

(** [bcrypt.hash(data, rounds)], awaited.  Without data the library
    rejects before it hashes. *)
Definition bcrypt_hash (o : entropy Salt) (data : option string) (rounds : Z)
  : completion string :=
  match data with
  | None => Throw (VStr "data and salt arguments required")
  | Some d =>
      match o with
      | Salted salt => Normal (hash_with salt d rounds)
      | Failing e => Throw e
      end
  end.

(** [bcrypt.compare(data, encrypted)], awaited. *)
Definition bcrypt_compare (data : string) (encrypted : option string)
  : completion bool :=
  match encrypted with
  | None => Throw (VStr "data and hash arguments required")
  | Some h => Normal (compare_with data h)
  end.

(** [userSchema.pre("save", async function (next) { ... })] *)
Definition pre_save (o : entropy Salt) : Hook JSVal :=
  m ← this_isModified "password";
  if negb m then call_next VUndefined
  else
    pw ← this_get "password";
    hashed ← await (bcrypt_hash o pw 10);
    this_set "password" hashed;;
    call_next VUndefined;;
    mret VUndefined.

(** [userSchema.methods.isPasswordCorrect], awaited. *)
Definition isPasswordCorrect (d : Document) (password : string) : completion bool :=
  bcrypt_compare password (values d !! "password").

(** *** Saving

    The mapper's [save], as far as the hook is concerned: the required
    paths are validated, the pre-save hook runs, and only then is the
    collection written; a new document is inserted whole, a known one has
    its modified paths written over the stored record, and a known one
    with nothing modified is only looked up.  A hook that rejects, or
    that hands [next] an error, ends the save with that error before
    anything is written.

    [fails_required] refuses a required path that is absent, or that was
    set to the empty string.  The mapper refuses these and, beyond them,
    an empty value that was read from the collection and not set since:
    what [validate] refuses the mapper refuses. *)

Definition fails_required (d : Document) (p : string) : bool :=
  match values d !! p with
  | None => true
  | Some v => isModified p d && bool_decide (v = "")
  end.

Definition validate (d : Document) : list string :=
  List.filter (fails_required d) required_paths.

Definition ValidationError (paths : list string) : JSVal :=
  VArr (VStr "ValidationError" :: (VStr <$> paths)).
Definition DuplicateKeyError : JSVal := VStr "E11000 duplicate key error".
Definition DocumentNotFoundError : JSVal := VStr "DocumentNotFoundError".

(** The hook run as the mapper runs it: the error it ends with, if any,
    and the document as the hook left it. *)
Definition run_pre_save (o : entropy Salt) (d : Document) : option JSVal * Document :=
  match pre_save o (mkHookState d []) with
  | (Throw e, s) => (Some e, this s)
  | (Normal _, s) => (List.find truthy (next_calls s), this s)
  end.

Definition clashes (d : Document) (p : string) (k : string) (r : Stored) : bool :=
  negb (bool_decide (k = _id d)) && bool_decide (values d !! p = s_values r !! p).

(** The unique indexes of the collection refuse the write. *)
Definition duplicate_key (d : Document) (db : gmap string Stored) : bool :=
  (isNew d && bool_decide (is_Some (db !! _id d)))
  || existsb (λ p, (isNew d || isModified p d)
                   && existsb (λ kr, clashes d p kr.1 kr.2) (map_to_list db))
       unique_paths.

Definition saved (d : Document) : Document :=
  mkDocument (_id d) (values d) (watchHistory d) ∅ false.

Definition delta (d : Document) (r : Stored) (now : Z) : Stored :=
  mkStored (filter (λ kv, kv.1 ∈ modified d) (values d) ∪ s_values r)
           (if isModified "watchHistory" d then watchHistory d else s_watchHistory r)
           (createdAt r) now.

Definition write (now : Z) (d : Document) (db : gmap string Stored)
  : completion Document * gmap string Stored :=
  if isNew d then
    if duplicate_key d db then (Throw DuplicateKeyError, db)
    else (Normal (saved d),
          <[_id d := mkStored (values d) (watchHistory d) now now]> db)
  else if bool_decide (modified d = ∅) then
    match db !! _id d with
    | None => (Throw DocumentNotFoundError, db)
    | Some _ => (Normal d, db)
    end
  else
    match db !! _id d with
    | None => (Throw DocumentNotFoundError, db)
    | Some r =>
        if duplicate_key d db then (Throw DuplicateKeyError, db)
        else (Normal (saved d), <[_id d := delta d r now]> db)
    end.

Definition save (o : entropy Salt) (now : Z) (d : Document) (db : gmap string Stored)
  : completion Document * gmap string Stored :=
  match validate d with
  | (_ :: _) as paths => (Throw (ValidationError paths), db)
  | [] =>
      match run_pre_save o d with
      | (Some e, _) => (Throw e, db)
      | (None, d') => write now d' db
      end
  end.

(** [User.create(input)] *)
Definition create (id : string) (input : gmap string string)
  (o : entropy Salt) (now : Z) (db : gmap string Stored)
  : completion Document * gmap string Stored :=
  save o now (new_User id input) db.

Definition stored_password (db : gmap string Stored) (id : string) : option string :=
  db !! id ≫= λ r, s_values r !! "password".

Definition stored_value (db : gmap string Stored) (id p : string) : option string :=
  db !! id ≫= λ r, s_values r !! p.

End Credentials.

(** *** Token issuance *)

(** A signed token: the JOSE header, the claims in the order they are
    serialised, and the signature.  The compact string form is one to one
    with this triple, and decoding a token reads the claims back. *)
Record Token : Type := mkToken {
  header : list (string * JSVal);
  claims : list (string * JSVal);
  signature : string
}.

Definition jwt_header : list (string * JSVal) :=
  [("alg", VStr "HS256"); ("typ", VStr "JWT")].

(** [JSON.stringify] leaves out a property whose value is [undefined]. *)
Definition serialised (kv : string * JSVal) : bool :=
  match kv.2 with
  | VUndefined => false
  | _ => true
  end.

(** The registered claim names of RFC 7519. *)
Definition standard_claim (name : string) : bool :=
  bool_decide (name ∈ ["iss"; "sub"; "aud"; "exp"; "nbf"; "iat"; "jti"]).

Definition application_claims (t : Token) : list (string * JSVal) :=
  List.filter (λ kv, negb (standard_claim kv.1)) (claims t).

(** A token's payload decodes to exactly the application claims [names]. *)
Definition decodes_to (names : list string) (t : Token) : Prop :=
  (application_claims t).*1 ≡ₚ names.

(** [process.env] *)
Abbreviation environment := (gmap string string).

(** A path of the document as a property value. *)
Definition property (d : Document) (p : string) : JSVal :=
  from_option VStr VUndefined (values d !! p).

Section Tokens.

(** jsonwebtoken's two primitives: the HS256 signature of header and
    claims under a secret, and the reading of a time span such as "1d" in
    whole milliseconds (the [ms] package; what lies below a millisecond
    cannot change the second of the expiry). *)
Variable HS256 : string → list (string * JSVal) * list (string * JSVal) → string.
Variable ms : string → option Z.

(** [timespan(time, iat)] for a string [time]. *)
Definition timespan (time : string) (iat : Z) : option Z :=
  (λ m, iat + m / 1000) <$> ms time.

Definition expiresIn_error : JSVal :=
  VStr "expiresIn should be a number of seconds or string representing a timespan".

(** [jwt.sign(payload, secretOrPrivateKey, { expiresIn })] for an object
    payload; [now] is the clock in seconds, [Math.floor(Date.now() / 1000)].
    The secret is checked first: it must not be empty, nor be a private
    key.  The issue time is added to the payload before the expiry. *)
Definition jwt_sign (now : Z) (payload : list (string * JSVal))
  (secretOrPrivateKey expiresIn : option string) : completion Token :=
  match secretOrPrivateKey with
  | None | Some EmptyString => Throw (VStr "secretOrPrivateKey must have a value")
  | Some secret =>
      if parses_as_private_key secret then
        Throw (VStr "secretOrPrivateKey must be a symmetric key when using HS256")
      else
      match expiresIn with
      | None | Some EmptyString => Throw expiresIn_error
      | Some span =>
          let payload := payload ++ [("iat", VNum now)] in
          match timespan span now with
          | None => Throw expiresIn_error
          | Some exp =>
              let payload := payload ++ [("exp", VNum exp)] in
              let cs := List.filter serialised payload in
              Normal (mkToken jwt_header cs (HS256 secret (jwt_header, cs)))
          end
      end
  end.

(** [jwt.decode(token)] *)
Definition jwt_decode (t : Token) : list (string * JSVal) := claims t.

(** The signature of a token is the one [secret] gives its header and
    claims. *)
Definition signature_valid (t : Token) (secret : string) : bool :=
  bool_decide (signature t = HS256 secret (header t, claims t)).

(** Whether Node's [createPublicKey] reads a string as a key; such a
    string is not taken as an HMAC secret when a token is verified. *)
Variable parses_as_public_key : string → bool.

(** [jwt.verify(token, secretOrPublicKey)] at clock [now], for a token
    whose header names HS256.  The key is checked first: it must be given
    and not be empty, and a key that is read as a public key does not allow
    HS256.  Then the signature is checked, then the expiry. *)
Definition jwt_verify (now : Z) (t : Token) (secretOrPublicKey : option string)
  : completion (list (string * JSVal)) :=
  match secretOrPublicKey with
  | None | Some EmptyString => Throw (VStr "secret or public key must be provided")
  | Some secret =>
      if parses_as_public_key secret then Throw (VStr "invalid algorithm")
      else if signature_valid t secret then
        match assoc "exp" (claims t) with
        | Some (VNum exp) =>
            if exp <=? now then Throw (VStr "jwt expired") else Normal (claims t)
        | _ => Normal (claims t)
        end
      else Throw (VStr "invalid signature")
  end.

(** [userSchema.methods.generateAccessToken] *)
Definition generateAccessToken (env : environment) (now : Z) (this : Document)
  : completion Token :=
  jwt_sign now
    [ ("_id", VStr (_id this));
      ("email", property this "email");
      ("username", property this "username");
      ("fullName", property this "fullName") ]
    (env !! "ACCESS_TOKEN_SECRET")
    (env !! "ACCESS_TOKEN_EXPIRY").

(** [userSchema.methods.generateRefreshToken] *)
Definition generateRefreshToken (env : environment) (now : Z) (this : Document)
  : completion Token :=
  jwt_sign now
    [ ("_id", VStr (_id this)) ]
    (env !! "REFRESH_TOKEN_SECRET")
    (env !! "REFRESH_TOKEN_EXPIRY").

(** The environment holds a usable secret under [secret_key], not empty
    and not a private key, and a time span of [m] milliseconds under
    [expiry_key]. *)
Definition configured (env : environment) (secret_key expiry_key : string)
  (secret : string) (m : Z) : Prop :=
  env !! secret_key = Some secret ∧ secret ≠ ""
  ∧ parses_as_private_key secret = false
  ∧ ∃ span, env !! expiry_key = Some span ∧ span ≠ "" ∧ ms span = Some m.

End Tokens.

(** *** Stand-ins for the libraries, to run the model on concrete inputs *)

(** A hash that puts a version tag and the salt in front of the data, and
    the test that goes with it. *)
Definition sample_hash (salt : string) (data : string) (rounds : Z) : string :=
  "$2b$" +:+ (salt +:+ String "$" data).

Fixpoint ends_with (suffix s : string) : bool :=
  bool_decide (s = suffix)
  || match s with
     | EmptyString => false
     | String _ s' => ends_with suffix s'
     end.

Definition sample_compare (data hash : string) : bool :=
  ends_with (String "$" data) hash.

(** The HS256 signature as the library computes it, over a given
    serialisation of header and claims. *)
Definition HMAC_HS256 (encode : list (string * JSVal) * list (string * JSVal) → string)
  (secret : string) (input : list (string * JSVal) * list (string * JSVal)) : string :=
  text (SHA256.hmac (bytes secret) (bytes (encode input))).

(** A serialisation that writes the names of the header and of the claims. *)
Definition sample_encode (input : list (string * JSVal) * list (string * JSVal)) : string :=
  String.concat "." (input.1.*1 ++ input.2.*1).

(** Node reads a string as a key in PEM format: a string without the
    armour of that format is no key. *)
Fixpoint pem_armoured (s : string) : bool :=
  String.prefix "-----BEGIN" s
  || match s with
     | EmptyString => false
     | String _ s' => pem_armoured s'
     end.

(** A signature that is the secret itself. *)
Definition sample_HS256 (secret : string)
  (input : list (string * JSVal) * list (string * JSVal)) : string := secret.

Definition sample_ms (span : string) : option Z :=
  if bool_decide (span = "1d") then Some 86400000
  else if bool_decide (span = "10d") then Some 864000000
  else None.

Definition sample_env : environment :=
  list_to_map [ ("ACCESS_TOKEN_SECRET", "access-secret");
                ("ACCESS_TOKEN_EXPIRY", "1d");
                ("REFRESH_TOKEN_SECRET", "refresh-secret");
                ("REFRESH_TOKEN_EXPIRY", "10d");
                ("CORS_ORIGIN", "*") ].

(** The registration of the specification's example. *)
Definition alice_input : gmap string string :=
  list_to_map [ ("username", "Alice"); ("email", "A@x.com");
                ("password", "secret123"); ("fullName", "Alice A");
                ("avatar", "http://x/a.png") ].

Definition alice : Document :=
  mkDocument "65f0c0ffee0000000000a11c"
    (list_to_map [ ("username", "alice"); ("email", "a@x.com");
                   ("password", "$2b$salt$secret123"); ("fullName", "Alice A");
                   ("avatar", "http://x/a.png") ])
    [] ∅ false.

(** *** Facts about the string setters *)

(** Every white space character and line terminator of the language, in
    UTF-8. *)
Definition white_space : string :=
  text [ 0x09; 0x0a; 0x0b; 0x0c; 0x0d; 0x20; 0xc2; 0xa0; 0xe1; 0x9a; 0x80;
         0xe2; 0x80; 0x80; 0xe2; 0x80; 0x81; 0xe2; 0x80; 0x82; 0xe2; 0x80; 0x83;
         0xe2; 0x80; 0x84; 0xe2; 0x80; 0x85; 0xe2; 0x80; 0x86; 0xe2; 0x80; 0x87;
         0xe2; 0x80; 0x88; 0xe2; 0x80; 0x89; 0xe2; 0x80; 0x8a; 0xe2; 0x80; 0xa8;
         0xe2; 0x80; 0xa9; 0xe2; 0x80; 0xaf; 0xe2; 0x81; 0x9f; 0xe3; 0x80; 0x80;
         0xef; 0xbb; 0xbf ].

(** [trim] removes all of it from both ends and nothing inside; U+0085
    and U+200B are no white space of the language and stay. *)
Example trim_white_space :
  trim (white_space +:+ "Alice  A" +:+ white_space) = "Alice  A"
  ∧ trim white_space = ""
  ∧ trim (text [0xc2; 0x85] +:+ " a " +:+ text [0xe2; 0x80; 0x8b])
    = text [0xc2; 0x85] +:+ " a " +:+ text [0xe2; 0x80; 0x8b]
  ∧ trim "Alice" = "Alice".
Proof. vm_compute. done. Qed.

Example ascii_toLowerCase_sample :
  ascii_toLowerCase "Alice A@x.COM @AZ[`az{" = "alice a@x.com @az[`az{".
Proof. reflexivity. Qed.

(** What the setters of [username] and [email] produce is normalised. *)
Lemma toLowerCase_trim_normalised s : normalised (toLowerCase (trim s)).
Proof. by exists s. Qed.

(** *** Facts about documents *)

Lemma doc_set_password h d :
  _id (doc_set "password" h d) = _id d
  ∧ isNew (doc_set "password" h d) = isNew d
  ∧ watchHistory (doc_set "password" h d) = watchHistory d
  ∧ values (doc_set "password" h d) = <["password" := h]> (values d)
  ∧ (∀ p, isModified p d = true → isModified p (doc_set "password" h d) = true)
  ∧ (∀ p, p ≠ "password" → isModified p (doc_set "password" h d) = isModified p d).
Proof.
  unfold doc_set. change (string_path "password")
    with (Some (StringOpts true false false false false)).
  unfold apply_setters; simpl. case_bool_decide as Heq.
  - split_and!; try done. by rewrite insert_id.
  - unfold isModified; simpl. split_and!; try done.
    + intros p Hp%bool_decide_eq_true. apply bool_decide_eq_true.
      apply elem_of_union. by right.
    + intros p Hp. apply bool_decide_ext. rewrite elem_of_union, elem_of_singleton.
      split; [by intros [?|?]|by right].
Qed.

(** An assignment either finds the value already there and changes
    nothing, or writes it and marks the path. *)
Lemma doc_set_cases p v d o :
  string_path p = Some o →
  (values d !! p = Some (apply_setters o v) ∧ doc_set p v d = d)
  ∨ (_id (doc_set p v d) = _id d
     ∧ isNew (doc_set p v d) = isNew d
     ∧ values (doc_set p v d) = <[p := apply_setters o v]> (values d)
     ∧ modified (doc_set p v d) = {[p]} ∪ modified d).
Proof.
  intros Hp. unfold doc_set. rewrite Hp. case_bool_decide; [by left|by right].
Qed.

Lemma doc_set_identifiers p v d :
  identifiers_normalised (values d) → identifiers_normalised (values (doc_set p v d)).
Proof.
  intros Hd. unfold doc_set.
  destruct (string_path p) as [o|] eqn:Hp; [|done].
  case_bool_decide; [done|]. simpl.
  intros p' o' v' Hp' Hlow Htrim Hl.
  destruct (decide (p = p')) as [<-|Hne].
  - rewrite lookup_insert_eq in Hl. simplify_eq.
    unfold apply_setters. rewrite Hlow, Htrim. apply toLowerCase_trim_normalised.
  - rewrite lookup_insert_ne in Hl by done. eauto.
Qed.

Lemma new_User_identifiers id input : identifiers_normalised (values (new_User id input)).
Proof.
  intros p o v Hp Hlow Htrim. unfold new_User; simpl.
  rewrite map_lookup_imap, Hp. destruct (input !! p) as [x|]; [|done]. simpl.
  intros [= <-]. unfold apply_setters. rewrite Hlow, Htrim.
  apply toLowerCase_trim_normalised.
Qed.

Lemma new_User_lookup id input p :
  values (new_User id input) !! p
  = input !! p ≫= λ v, (λ o, apply_setters o v) <$> string_path p.
Proof. unfold new_User; simpl. by rewrite map_lookup_imap. Qed.

Lemma new_User_modified id input p :
  isModified p (new_User id input) = bool_decide (is_Some (values (new_User id input) !! p)).
Proof. unfold isModified, new_User; simpl. apply bool_decide_ext, elem_of_dom. Qed.

(** *** Facts about the hook and the save *)

Section CredentialFacts.

Context {Salt : Type}.
Variable hash_with : Salt → string → Z → string.
Variable compare_with : string → string → bool.

Implicit Types (o : entropy Salt) (d : Document) (db : gmap string Stored).

(** Runs the hook up to its branch on [isModified], whose value [Hm]
    gives, and then up to the awaited hash. *)
Ltac run_hook Hm :=
  unfold pre_save, mbind, hook_bind, this_isModified, this_get, await;
  cbn beta iota delta [this next_calls]; rewrite Hm;
  cbn beta iota delta [this next_calls negb].

(** The hook, case by case. *)
Lemma pre_save_unmodified o d calls :
  isModified "password" d = false →
  pre_save hash_with o (mkHookState d calls)
  = (Normal VUndefined, mkHookState d (calls ++ [VUndefined])).
Proof.
  intros Hm. by run_hook Hm.
Qed.

Lemma pre_save_hashed o d calls h :
  isModified "password" d = true →
  bcrypt_hash hash_with o (values d !! "password") 10 = Normal h →
  pre_save hash_with o (mkHookState d calls)
  = (Normal VUndefined, mkHookState (doc_set "password" h d) (calls ++ [VUndefined])).
Proof.
  intros Hm Hh. run_hook Hm. by rewrite Hh.
Qed.

Lemma pre_save_failed o d calls e :
  isModified "password" d = true →
  bcrypt_hash hash_with o (values d !! "password") 10 = Throw e →
  pre_save hash_with o (mkHookState d calls) = (Throw e, mkHookState d calls).
Proof.
  intros Hm Hh. run_hook Hm. by rewrite Hh.
Qed.

Lemma run_pre_save_eq o d :
  run_pre_save hash_with o d
  = if isModified "password" d then
      match bcrypt_hash hash_with o (values d !! "password") 10 with
      | Normal h => (None, doc_set "password" h d)
      | Throw e => (Some e, d)
      end
    else (None, d).
Proof.
  unfold run_pre_save.
  destruct (isModified "password" d) eqn:Hm.
  - destruct (bcrypt_hash hash_with o (values d !! "password") 10) as [h|e] eqn:Hh.
    + by rewrite (pre_save_hashed o d [] h Hm Hh).
    + by rewrite (pre_save_failed o d [] e Hm Hh).
  - by rewrite (pre_save_unmodified o d [] Hm).
Qed.

(** A save that fails has written nothing. *)
Lemma write_failure now d db e db' :
  write now d db = (Throw e, db') → db' = db.
Proof.
  unfold write. repeat case_match; naive_solver.
Qed.

Lemma save_failure o now d db e db' :
  save hash_with o now d db = (Throw e, db') → db' = db.
Proof.
  clear parses_as_private_key compare_with.
  unfold save. destruct (validate d); [|naive_solver].
  destruct (run_pre_save hash_with o d) as [[e'|] d1]; [naive_solver|].
  apply write_failure.
Qed.

(** A validated document has its required paths. *)
Lemma validate_required d p :
  validate d = [] → p ∈ required_paths → is_Some (values d !! p).
Proof.
  unfold validate. intros Hv Hp.
  destruct (values d !! p) as [v|] eqn:Hl; [eauto|].
  assert (p ∈ List.filter (fails_required d) required_paths) as Hin.
  { apply list_elem_of_In, filter_In. split; [by apply list_elem_of_In|].
    unfold fails_required. by rewrite Hl. }
  rewrite Hv in Hin. by apply elem_of_nil in Hin.
Qed.

(** What a successful save with a modified password has done. *)
Lemma save_modified_password_inv o now d db d' db' :
  save hash_with o now d db = (Normal d', db') →
  isModified "password" d = true →
  ∃ salt plain,
    o = Salted salt
    ∧ values d !! "password" = Some plain
    ∧ values d' !! "password" = Some (hash_with salt plain 10)
    ∧ _id d' = _id d
    ∧ stored_password db' (_id d) = Some (hash_with salt plain 10).
Proof.
  unfold save. intros Hs Hm.
  destruct (validate d) eqn:Hv; [|done].
  destruct (validate_required d "password" Hv) as [plain Hp].
  { unfold required_paths, paths_where; simpl. set_solver. }
  rewrite run_pre_save_eq, Hm, Hp in Hs.
  destruct o as [salt|e]; simpl in Hs; [|done].
  exists salt, plain.
  destruct (doc_set_password (hash_with salt plain 10) d)
    as (Hid & Hnew & _ & Hvals & Hmod & _).
  set (d1 := doc_set "password" (hash_with salt plain 10) d) in *.
  assert (isModified "password" d1 = true) as Hm1 by auto.
  assert (values d1 !! "password" = Some (hash_with salt plain 10)) as Hl1.
  { rewrite Hvals. apply lookup_insert_eq. }
  unfold write in Hs. rewrite Hnew in Hs.
  unfold stored_password.
  destruct (isNew d).
  - destruct (duplicate_key d1 db); [done|]. simplify_eq. rewrite Hid.
    split_and!; try done. by rewrite lookup_insert_eq.
  - case_bool_decide as He.
    { apply bool_decide_eq_true in Hm1. rewrite He in Hm1. set_solver. }
    destruct (db !! _id d1) as [r|]; [|done].
    destruct (duplicate_key d1 db); [done|]. simplify_eq. rewrite Hid.
    split_and!; try done. rewrite lookup_insert_eq. simpl.
    apply lookup_union_Some_l, map_lookup_filter_Some. split; [done|].
    simpl. by apply bool_decide_eq_true in Hm1.
Qed.

(** C3. A record that has been persisted before and whose password is
    not marked modified goes through the save with the hook calling
    [next] once and leaving every field of the document as it was, and the
    password stored for any identifier is after the save what it was
    before it, whether the save succeeds or fails. *)
Theorem save_unmodified_password_untouched o now d db :
  isNew d = false →
  isModified "password" d = false →
  pre_save hash_with o (mkHookState d [])
    = (Normal VUndefined, mkHookState d [VUndefined])
  ∧ run_pre_save hash_with o d = (None, d)
  ∧ ∀ id, stored_password (save hash_with o now d db).2 id = stored_password db id.
Proof.
  intros Hnew Hm. split_and!.
  - exact (pre_save_unmodified o d [] Hm).
  - by rewrite run_pre_save_eq, Hm.
  - intros id. unfold save. destruct (validate d); [|done].
    rewrite run_pre_save_eq, Hm. unfold write. rewrite Hnew.
    case_bool_decide; [by destruct (db !! _id d)|].
    destruct (db !! _id d) as [r|] eqn:Hr; [|done].
    destruct (duplicate_key d db); [done|]. simpl.
    unfold stored_password.
    destruct (decide (id = _id d)) as [->|Hne]; [|by rewrite lookup_insert_ne].
    rewrite lookup_insert_eq, Hr. simpl.
    destruct (s_values r !! "password") as [h|] eqn:Hh.
    + apply lookup_union_Some_raw. right. split; [|done].
      apply map_lookup_filter_None. right. intros v _. simpl.
      by apply bool_decide_eq_false in Hm.
    + apply lookup_union_None. split; [|done].
      apply map_lookup_filter_None. right. intros v _. simpl.
      by apply bool_decide_eq_false in Hm.
Qed.

(** C4. When the document is valid, its password is modified and the
    hashing fails with [e], the hook rejects with [e] without having
    touched the document or called [next], the save ends by throwing that
    very [e], and the collection is the one the save started from. *)
Theorem save_hash_failure_aborts e now d db :
  validate d = [] →
  isModified "password" d = true →
  pre_save hash_with (Failing e) (mkHookState d []) = (Throw e, mkHookState d [])
  ∧ save hash_with (Failing e) now d db = (Throw e, db).
Proof.
  intros Hv Hm.
  destruct (validate_required d "password" Hv) as [plain Hp].
  { unfold required_paths, paths_where; simpl. set_solver. }
  split.
  - apply pre_save_failed; [done|]. by rewrite Hp.
  - unfold save. by rewrite Hv, run_pre_save_eq, Hm, Hp.
Qed.

(** Registration stores the two identifiers as the setters leave them. *)
Lemma create_values o now id input db d' db' p :
  create hash_with id input o now db = (Normal d', db') →
  p ≠ "password" →
  ∃ r, db' !! id = Some r ∧ s_values r !! p = values (new_User id input) !! p.
Proof.
  unfold create, save. intros Hs Hp.
  destruct (validate _); [|done].
  rewrite run_pre_save_eq in Hs.
  set (d0 := new_User id input) in *.
  assert (∃ d1, write now d1 db = (Normal d', db') ∧ _id d1 = id ∧ isNew d1 = true
                ∧ values d1 !! p = values d0 !! p) as (d1 & Hw & Hid & Hnew & Hl).
  { destruct (isModified "password" d0); [|by exists d0].
    destruct (bcrypt_hash _ _ _ _) as [h|]; [|done].
    destruct (doc_set_password h d0) as (? & ? & _ & Hvals & _).
    exists (doc_set "password" h d0). split_and!; try done.
    rewrite Hvals. by apply lookup_insert_ne. }
  unfold write in Hw. rewrite Hnew in Hw.
  destruct (duplicate_key d1 db); [done|]. simplify_eq.
  eexists. split; [apply lookup_insert_eq|done].
Qed.

(** The document a registration hands back has the identifier it was
    constructed with. *)
Lemma create_id o now id input db d' db' :
  create hash_with id input o now db = (Normal d', db') → _id d' = id.
Proof.
  unfold create, save. intros Hs.
  destruct (validate _); [|done].
  rewrite run_pre_save_eq in Hs.
  set (d0 := new_User id input) in *.
  assert (∃ d1, write now d1 db = (Normal d', db') ∧ _id d1 = id ∧ isNew d1 = true)
    as (d1 & Hw & Hid & Hnew).
  { destruct (isModified "password" d0); [|by exists d0].
    destruct (bcrypt_hash _ _ _ _) as [h|]; [|done].
    destruct (doc_set_password h d0) as (? & ? & _).
    by exists (doc_set "password" h d0). }
  unfold write in Hw. rewrite Hnew in Hw.
  destruct (duplicate_key d1 db); [done|]. by simplify_eq.
Qed.

(** An identifier is stored as the setters leave it, at registration and
    at a later save. *)
Lemma identifier_persisted p v :
  p = "username" ∨ p = "email" →
  (∀ o now id input db d' db',
     create hash_with id input o now db = (Normal d', db') →
     input !! p = Some v →
     stored_value db' (_id d') p = Some (toLowerCase (trim v)))
  ∧ (∀ o now id db d d' db',
       findById id db = Some d →
       save hash_with o now (doc_set p v d) db = (Normal d', db') →
       stored_value db' id p = Some (toLowerCase (trim v))).
Proof.
  intros Hp.
  assert (∃ opts, string_path p = Some opts
                  ∧ ∀ x, apply_setters opts x = toLowerCase (trim x)) as (opts & Hopts & Hset).
  { destruct Hp as [-> | ->]; eexists; (split; [reflexivity|done]). }
  assert (p ≠ "password") as Hpw by (by destruct Hp as [-> | ->]).
  split.
  - intros o now id input db d' db' Hc Hv. rewrite (create_id _ _ _ _ _ _ _ Hc).
    destruct (create_values o now id input db d' db' p Hc Hpw) as (r & Hr & Hrp).
    unfold stored_value. rewrite Hr. simpl.
    by rewrite Hrp, new_User_lookup, Hv, Hopts, <-Hset.
  - intros o now id db d d' db' Hf Hs.
    unfold findById in Hf. destruct (db !! id) as [r|] eqn:Hr; [|done].
    simpl in Hf. injection Hf as <-.
    unfold save in Hs. destruct (validate _); [|done].
    rewrite run_pre_save_eq in Hs. unfold stored_value.
    destruct (doc_set_cases p v (hydrate id r) opts Hopts)
      as [[Heq Hsame]|(Hid & Hnew & Hvals & Hmod)].
    + rewrite Hsame in Hs.
      change (isModified "password" (hydrate id r)) with false in Hs.
      unfold write in Hs. cbn [isNew _id modified hydrate] in Hs. rewrite Hr in Hs.
      rewrite bool_decide_eq_true_2 in Hs by done. simplify_eq.
      rewrite Hr. simpl. by rewrite <-Hset.
    + set (d1 := doc_set p v (hydrate id r)) in *.
      assert (isModified "password" d1 = false) as Hm.
      { apply bool_decide_eq_false. rewrite Hmod. cbn [modified hydrate].
        rewrite elem_of_union, elem_of_singleton. by intros [?|?%elem_of_empty]. }
      rewrite Hm in Hs. unfold write in Hs. rewrite Hnew, Hid in Hs.
      cbn [isNew _id hydrate] in Hs.
      rewrite bool_decide_eq_false_2 in Hs.
      2:{ rewrite Hmod. intros He. assert (p ∈ (∅ : gset string)) as Hin.
          { rewrite <-He. apply elem_of_union. left. by apply elem_of_singleton. }
          by apply elem_of_empty in Hin. }
      rewrite Hr in Hs. destruct (duplicate_key _ _); [done|]. simplify_eq.
      rewrite lookup_insert_eq. cbn [delta s_values mbind option_bind].
      apply lookup_union_Some_l, map_lookup_filter_Some.
      split.
      * rewrite Hvals, <-Hset. apply lookup_insert_eq.
      * cbn [fst]. rewrite Hmod. apply elem_of_union. left. by apply elem_of_singleton.
Qed.

(** The example of the specification, for every [toLowerCase] that does to
    ASCII strings what the language's does: "Alice" and "A@x.com" are
    stored as "alice" and "a@x.com". *)
Lemma alice_stored_lowercased o now id db d' db' :
  (∀ s, ascii_only s = true → toLowerCase s = ascii_toLowerCase s) →
  create hash_with id alice_input o now db = (Normal d', db') →
  stored_value db' (_id d') "username" = Some "alice"
  ∧ stored_value db' (_id d') "email" = Some "a@x.com".
Proof.
  intros Hascii Hc. rewrite (create_id _ _ _ _ _ _ _ Hc).
  destruct (create_values o now id alice_input db d' db' "username" Hc) as (r & Hr & Hu); [done|].
  destruct (create_values o now id alice_input db d' db' "email" Hc) as (r' & Hr' & He); [done|].
  rewrite Hr in Hr'. injection Hr' as <-. clear Hc.
  unfold stored_value. rewrite Hr. cbn [mbind option_bind].
  rewrite Hu, He, !new_User_lookup.
  assert (alice_input !! "username" = Some "Alice") as -> by (vm_compute; reflexivity).
  assert (alice_input !! "email" = Some "A@x.com") as -> by (vm_compute; reflexivity).
  assert (string_path "username" = Some (StringOpts true true true true true)) as ->
    by (vm_compute; reflexivity).
  assert (string_path "email" = Some (StringOpts true true true true false)) as ->
    by (vm_compute; reflexivity).
  unfold apply_setters. cbn [trim_opt lowercase fmap option_fmap option_map mbind option_bind].
  assert (trim "Alice" = "Alice") as -> by (vm_compute; reflexivity).
  assert (trim "A@x.com" = "A@x.com") as -> by (vm_compute; reflexivity).
  rewrite !Hascii by (vm_compute; reflexivity).
  split; vm_compute; reflexivity.
Qed.

(** C9. Whenever a record is persisted, its [username] and [email] are
    stored as [toLowerCase] of [trim] of the value given: at registration,
    for the value of the input, and at a later save, for a value assigned
    to the record read from the collection.  In particular, with a
    [toLowerCase] that does to ASCII strings what the language's does,
    registering the example's input stores the user name "alice" and the
    address "a@x.com". *)
Theorem persisted_identifiers_trimmed_and_lowercased :
  (∀ p v o now id input db d' db',
     p = "username" ∨ p = "email" →
     create hash_with id input o now db = (Normal d', db') →
     input !! p = Some v →
     stored_value db' (_id d') p = Some (toLowerCase (trim v)))
  ∧ (∀ p v o now id db d d' db',
       p = "username" ∨ p = "email" →
       findById id db = Some d →
       save hash_with o now (doc_set p v d) db = (Normal d', db') →
       stored_value db' id p = Some (toLowerCase (trim v)))
  ∧ ((∀ s, ascii_only s = true → toLowerCase s = ascii_toLowerCase s) →
     ∀ o now id db d' db',
       create hash_with id alice_input o now db = (Normal d', db') →
       stored_value db' (_id d') "username" = Some "alice"
       ∧ stored_value db' (_id d') "email" = Some "a@x.com").
Proof.
  split_and!.
  - intros p v o now id input db d' db' Hp. by apply (identifier_persisted p v Hp).
  - intros p v o now id db d d' db' Hp. by apply (identifier_persisted p v Hp).
  - intros Hascii o now id db d' db'. by apply alice_stored_lowercased.
Qed.

(** X13. Every save keeps the identifiers of the collection normalised:
    when the document's and the stored [username] and [email] values are
    trimmed and lowercased before a save, so is every stored one after it,
    whether the save inserts, updates or fails. *)
Lemma save_keeps_identifiers_normalised o now d db :
  identifiers_normalised (values d) →
  store_normalised db →
  store_normalised (save hash_with o now d db).2.
Proof.
  intros Hd Hdb. unfold save. destruct (validate d); [|done].
  rewrite run_pre_save_eq.
  assert (∀ d1, identifiers_normalised (values d1) →
                store_normalised (write now d1 db).2) as Hw.
  { intros d1 Hd1. unfold write.
    destruct (isNew d1).
    - destruct (duplicate_key d1 db); [done|]. simpl.
      intros id r [[<- <-]|[_ Hr]]%lookup_insert_Some; [done|by eapply Hdb].
    - case_bool_decide; [by destruct (db !! _id d1)|].
      destruct (db !! _id d1) as [r1|] eqn:Hr1; [|done].
      destruct (duplicate_key d1 db); [done|]. simpl.
      intros id r [[<- <-]|[_ Hr]]%lookup_insert_Some; [|by eapply Hdb].
      intros p o' v Hp Hlow Htrim [Hl|[_ Hl]]%lookup_union_Some_raw.
      + apply map_lookup_filter_Some in Hl as [Hl _]. by eapply Hd1.
      + by eapply (Hdb _ _ Hr1). }
  destruct (isModified "password" d); [|by apply Hw].
  destruct (bcrypt_hash _ _ _ _) as [h|e]; [|done].
  by apply Hw, doc_set_identifiers.
Qed.

(** A registration with every required path, a salt to hash with and no
    clash in the collection succeeds. *)
Lemma create_succeeds salt now id input db :
  validate (new_User id input) = [] →
  (∀ h, duplicate_key (doc_set "password" h (new_User id input)) db = false) →
  ∃ d' db', create hash_with id input (Salted salt) now db = (Normal d', db').
Proof.
  clear parses_as_private_key compare_with.
  intros Hv Hdup. unfold create, save. rewrite Hv, run_pre_save_eq.
  destruct (validate_required _ "password" Hv) as [plain Hp].
  { unfold required_paths, paths_where; simpl. set_solver. }
  assert (isModified "password" (new_User id input) = true) as ->.
  { rewrite new_User_modified, Hp. by apply bool_decide_eq_true. }
  rewrite Hp. simpl. unfold write.
  destruct (doc_set_password (hash_with salt plain 10) (new_User id input))
    as (_ & -> & _). simpl. rewrite Hdup. eauto.
Qed.

(** X6. When the hook hashes, it changes the password and nothing else:
    every other path, the identifier, the watch history, the new-flag
    and the set of modified paths are as they were, and [next] has been
    called once, without an argument. *)
Lemma pre_save_hashing_frame salt d plain :
  isModified "password" d = true →
  values d !! "password" = Some plain →
  ∃ d', pre_save hash_with (Salted salt) (mkHookState d [])
          = (Normal VUndefined, mkHookState d' [VUndefined])
        ∧ values d' !! "password" = Some (hash_with salt plain 10)
        ∧ (∀ p, p ≠ "password" → values d' !! p = values d !! p)
        ∧ _id d' = _id d ∧ isNew d' = isNew d ∧ watchHistory d' = watchHistory d
        ∧ ∀ p, isModified p d' = isModified p d.
Proof.
  intros Hm Hp. exists (doc_set "password" (hash_with salt plain 10) d).
  destruct (doc_set_password (hash_with salt plain 10) d)
    as (Hid & Hnew & Hw & Hvals & Hmod & Hmod').
  split_and!; try done.
  - apply pre_save_hashed; [done|]. by rewrite Hp.
  - rewrite Hvals. apply lookup_insert_eq.
  - intros p Hne. rewrite Hvals. by apply lookup_insert_ne.
  - intros p. destruct (decide (p = "password")) as [->|Hne]; [|by apply Hmod'].
    rewrite Hm. by apply Hmod.
Qed.

(** X7. The hook either completes, having called [next] exactly once and
    with no argument, or it throws, and then only on a modified password,
    having called [next] not at all and left the document as it was.  It
    never hands [next] an error and never calls it twice. *)
Lemma pre_save_next_discipline o d :
  (∃ d', pre_save hash_with o (mkHookState d [])
         = (Normal VUndefined, mkHookState d' [VUndefined]))
  ∨ (∃ e, pre_save hash_with o (mkHookState d []) = (Throw e, mkHookState d [])
          ∧ isModified "password" d = true).
Proof.
  destruct (isModified "password" d) eqn:Hm.
  - destruct (bcrypt_hash hash_with o (values d !! "password") 10) as [h|e] eqn:Hh.
    + left. eexists. by apply pre_save_hashed.
    + right. exists e. split; [by apply pre_save_failed|done].
  - left. exists d. by apply pre_save_unmodified.
Qed.

Lemma filter_nil_iff {A : Type} (f : A → bool) (l : list A) :
  List.filter f l = [] ↔ ∀ x, x ∈ l → f x = false.
Proof.
  induction l as [|a l IH]; simpl.
  - split; [|done]. by intros _ x ?%elem_of_nil.
  - destruct (f a) eqn:Ha.
    + split; [done|]. intros H. specialize (H a (list_elem_of_here _ _)). congruence.
    + rewrite IH. split.
      * intros H x [->|?]%elem_of_cons; auto.
      * intros H x Hx. apply H. by apply list_elem_of_further.
Qed.

(** What a successful save hands back: a document in step with the
    store and found in it, with every path the saved one had. *)
Lemma save_result o now d db d' db' :
  save hash_with o now d db = (Normal d', db') →
  isNew d' = false ∧ modified d' = ∅ ∧ is_Some (db' !! _id d')
  ∧ ∀ p, is_Some (values d !! p) → is_Some (values d' !! p).
Proof.
  unfold save. intros Hs. destruct (validate d); [|done].
  rewrite run_pre_save_eq in Hs.
  assert (∃ d1, write now d1 db = (Normal d', db')
                ∧ ∀ p, is_Some (values d !! p) → is_Some (values d1 !! p))
    as (d1 & Hw & Hsome).
  { destruct (isModified "password" d); [|by exists d].
    destruct (bcrypt_hash _ _ _ _) as [h|]; [|done].
    exists (doc_set "password" h d). split; [done|].
    destruct (doc_set_password h d) as (_ & _ & _ & -> & _).
    intros p Hp. destruct (decide (p = "password")) as [->|Hne].
    - rewrite lookup_insert_eq. eauto.
    - by rewrite lookup_insert_ne. }
  unfold write in Hw. destruct (isNew d1) eqn:Hnew.
  - destruct (duplicate_key d1 db); [done|]. simplify_eq. simpl.
    split_and!; try done. rewrite lookup_insert_eq. eauto.
  - case_bool_decide as He.
    + destruct (db !! _id d1) eqn:Hr; simplify_eq. by split_and!.
    + destruct (db !! _id d1); [|done].
      destruct (duplicate_key d1 db); [done|]. simplify_eq. simpl.
      split_and!; try done. rewrite lookup_insert_eq. eauto.
Qed.

(** X8. Saving again the document a successful save handed back, without
    touching it, succeeds and writes nothing, whatever the salt or the
    clock: the stored hash is not hashed a second time. *)
Lemma save_again_writes_nothing o o' now now' d db d' db' :
  save hash_with o now d db = (Normal d', db') →
  save hash_with o' now' d' db' = (Normal d', db').
Proof.
  intros Hs. destruct (save_result o now d db d' db' Hs) as (Hnew & Hmod & [r Hr] & Hsome).
  assert (validate d = []) as Hv.
  { unfold save in Hs. by destruct (validate d). }
  assert (∀ p, isModified p d' = false) as Hm.
  { intros p. apply bool_decide_eq_false. rewrite Hmod. set_solver. }
  assert (validate d' = []) as Hv'.
  { apply filter_nil_iff. intros p Hp. unfold fails_required.
    destruct (Hsome p) as [v ->]; [by apply validate_required|].
    by rewrite Hm. }
  unfold save. rewrite Hv', run_pre_save_eq, Hm. unfold write.
  rewrite Hnew, Hr. by rewrite bool_decide_eq_true_2.
Qed.

(** X9. A registration whose input lacks a required path, or gives it a
    value that its setters reduce to the empty string (a user name of
    white space only), is refused with a validation error that names the
    path, before any hashing, and nothing is written. *)
Lemma create_requires o now id input db p opts :
  string_path p = Some opts →
  required opts = true →
  (∀ v, input !! p = Some v → apply_setters opts v = "") →
  ∃ paths, p ∈ paths
           ∧ create hash_with id input o now db = (Throw (ValidationError paths), db).
Proof.
  intros Hp Hreq Hblank.
  assert (p ∈ validate (new_User id input)) as Hin.
  { unfold validate. apply list_elem_of_In, filter_In. split.
    - apply list_elem_of_In. unfold required_paths, paths_where.
      apply list_elem_of_omap. unfold string_path in Hp.
      destruct (assoc p userSchema) as [[o'|]|] eqn:Ha; simplify_eq.
      exists (p, SString opts). rewrite Hreq. split; [|done].
      clear -Ha. induction userSchema as [|[k a] l IH]; [done|].
      simpl in Ha. case_bool_decide; simplify_eq; [left|right; auto].
    - unfold fails_required. rewrite new_User_modified, new_User_lookup, Hp.
      destruct (input !! p) as [v|] eqn:Hv; [|done]. simpl.
      rewrite (Hblank v eq_refl). by rewrite bool_decide_eq_true_2 by eauto. }
  unfold create, save.
  destruct (validate (new_User id input)) as [|q qs] eqn:Hv.
  - by apply elem_of_nil in Hin.
  - by exists (q :: qs).
Qed.

(** X11. A registration that succeeds stores [fullName] trimmed with its
    case kept, and [avatar] exactly as it was given. *)
Lemma create_stores_profile o now id input db d' db' name url :
  create hash_with id input o now db = (Normal d', db') →
  input !! "fullName" = Some name →
  input !! "avatar" = Some url →
  ∃ r, db' !! _id d' = Some r
       ∧ s_values r !! "fullName" = Some (trim name)
       ∧ s_values r !! "avatar" = Some url.
Proof.
  intros Hc Hn Hu. rewrite (create_id _ _ _ _ _ _ _ Hc).
  destruct (create_values o now id input db d' db' "fullName" Hc) as (r & Hr & Hrn); [done|].
  destruct (create_values o now id input db d' db' "avatar" Hc) as (r' & Hr' & Hru); [done|].
  simplify_eq. exists r. by rewrite Hrn, Hru, !new_User_lookup, Hn, Hu.
Qed.

(** A save of a stored record whose password is not modified leaves
    every stored password as it was. *)
Lemma save_password_frame o now d db id :
  isNew d = false →
  isModified "password" d = false →
  stored_password (save hash_with o now d db).2 id = stored_password db id.
Proof.
  intros Hnew Hm. unfold save. destruct (validate d); [|done].
  rewrite run_pre_save_eq, Hm. unfold write. rewrite Hnew.
  case_bool_decide; [by destruct (db !! _id d)|].
  destruct (db !! _id d) as [r|] eqn:Hr; [|done].
  destruct (duplicate_key d db); [done|]. simpl. unfold stored_password.
  destruct (decide (id = _id d)) as [->|Hne]; [|by rewrite lookup_insert_ne].
  rewrite lookup_insert_eq, Hr. simpl.
  assert (filter (λ kv, kv.1 ∈ modified d) (values d) !! "password" = None) as Hf.
  { apply map_lookup_filter_None. right. intros v _. simpl.
    by apply bool_decide_eq_false in Hm. }
  destruct (s_values r !! "password") as [h|] eqn:Hh.
  - apply lookup_union_Some_raw. by right.
  - by apply lookup_union_None.
Qed.

Section WithLaws.

(** What bcrypt promises of its two primitives: a hash passes the test
    against the data it was made from, and no string is its own hash. *)
Hypothesis compare_hash : ∀ salt data rounds,
  compare_with data (hash_with salt data rounds) = true.
Hypothesis hash_not_identity : ∀ salt data rounds,
  hash_with salt data rounds ≠ data.

(** C2. A save that succeeds on a document whose password is marked
    modified has drawn a salt, replaced the password by its hash under that
    salt at cost 10 before the write, and stored that hash; the stored
    value differs from the plaintext, and [isPasswordCorrect] called with
    the plaintext on the saved document, or on the document read back
    from the collection, gives [true]. *)
Theorem save_stores_password_hash o now d db d' db' :
  save hash_with o now d db = (Normal d', db') →
  isModified "password" d = true →
  ∃ salt plain,
    o = Salted salt
    ∧ values d !! "password" = Some plain
    ∧ stored_password db' (_id d) = Some (hash_with salt plain 10)
    ∧ stored_password db' (_id d) ≠ Some plain
    ∧ isPasswordCorrect compare_with d' plain = Normal true
    ∧ ∀ d'', findById (_id d) db' = Some d'' →
             isPasswordCorrect compare_with d'' plain = Normal true.
Proof.
  intros Hs Hm.
  destruct (save_modified_password_inv o now d db d' db' Hs Hm)
    as (salt & plain & -> & Hp & Hd' & Hid & Hst).
  exists salt, plain. split_and!; try done.
  - rewrite Hst. intros [= Heq]. by apply hash_not_identity in Heq.
  - unfold isPasswordCorrect. rewrite Hd'. simpl. by rewrite compare_hash.
  - unfold findById, stored_password in *. intros d'' Hf.
    destruct (db' !! _id d) as [r|]; simplify_eq/=.
    unfold isPasswordCorrect, hydrate; simpl. rewrite Hst. simpl.
    by rewrite compare_hash.
Qed.

(** Registration: the password given is stored hashed, and verifies. *)
Lemma create_stores_password_hash o now id input db d' db' plain :
  create hash_with id input o now db = (Normal d', db') →
  input !! "password" = Some plain →
  ∃ salt, stored_password db' id = Some (hash_with salt plain 10)
          ∧ stored_password db' id ≠ Some plain
          ∧ isPasswordCorrect compare_with d' plain = Normal true.
Proof.
  unfold create. intros Hs Hp.
  assert (values (new_User id input) !! "password" = Some plain) as Hl.
  { by rewrite new_User_lookup, Hp. }
  assert (isModified "password" (new_User id input) = true) as Hm.
  { rewrite new_User_modified, Hl. by apply bool_decide_eq_true. }
  destruct (save_modified_password_inv o now _ db d' db' Hs Hm)
    as (salt & plain' & -> & Hp' & Hd' & Hid & Hst).
  simplify_eq. exists salt. simpl in Hst. split_and!; try done.
  - rewrite Hst. intros [= Heq]. by apply hash_not_identity in Heq.
  - unfold isPasswordCorrect. rewrite Hd'. simpl. by rewrite compare_hash.
Qed.

(** X18. After a registration, saving the record with only its refresh
    token set leaves the password verifiable: [isPasswordCorrect] with the
    registered plaintext gives [true] on the record read back from the
    collection. *)
Lemma refresh_token_save_keeps_password o o' now now' id input db d1 db1 token d2 db2 plain :
  create hash_with id input o now db = (Normal d1, db1) →
  input !! "password" = Some plain →
  save hash_with o' now' (doc_set "refreshToken" token d1) db1 = (Normal d2, db2) →
  ∃ d, findById id db2 = Some d ∧ isPasswordCorrect compare_with d plain = Normal true.
Proof.
  clear hash_not_identity. unfold create. intros Hc Hp Hs.
  assert (values (new_User id input) !! "password" = Some plain) as Hl.
  { by rewrite new_User_lookup, Hp. }
  assert (isModified "password" (new_User id input) = true) as Hm.
  { rewrite new_User_modified, Hl. by apply bool_decide_eq_true. }
  destruct (save_modified_password_inv o now _ db d1 db1 Hc Hm)
    as (salt & plain' & _ & Hp' & _ & Hid & Hst).
  destruct (save_result o now _ db d1 db1 Hc) as (Hnew & Hmod & _ & _).
  rewrite Hl in Hp'. injection Hp' as <-. simpl in Hst, Hid.
  set (d := doc_set "refreshToken" token d1) in *.
  assert (isNew d = false ∧ isModified "password" d = false) as [Hnew' Hm'].
  { unfold d, doc_set. change (string_path "refreshToken")
      with (Some (StringOpts false false false false false)).
    unfold apply_setters; simpl. case_bool_decide.
    - split; [done|]. apply bool_decide_eq_false. rewrite Hmod. set_solver.
    - split; [done|]. unfold isModified; simpl. apply bool_decide_eq_false.
      rewrite Hmod. rewrite elem_of_union, elem_of_singleton. by intros [?|?%elem_of_empty]. }
  pose proof (save_password_frame o' now' d db1 id Hnew' Hm') as Hframe.
  rewrite Hs, Hst in Hframe. simpl in Hframe.
  unfold stored_password in Hframe. unfold findById.
  destruct (db2 !! id) as [r|]; simplify_eq/=.
  eexists. split; [done|].
  unfold isPasswordCorrect, hydrate; simpl. rewrite Hframe. simpl.
  by rewrite compare_hash.
Qed.

End WithLaws.

End CredentialFacts.

(** *** Facts about token issuance *)

Section TokenFacts.

Variable HS256 : string → list (string * JSVal) * list (string * JSVal) → string.
Variable ms : string → option Z.
Variable parses_as_public_key : string → bool.

Implicit Types (env : environment) (d : Document) (t : Token).

Lemma jwt_sign_configured now payload secret span m :
  secret ≠ "" → parses_as_private_key secret = false →
  span ≠ "" → ms span = Some m →
  jwt_sign HS256 ms now payload (Some secret) (Some span)
  = let cs := List.filter serialised
                (payload ++ [("iat", VNum now)] ++ [("exp", VNum (now + m / 1000))]) in
    Normal (mkToken jwt_header cs (HS256 secret (jwt_header, cs))).
Proof.
  intros Hs Hk Hx Hm. unfold jwt_sign, timespan.
  destruct secret; [done|]. rewrite Hk. destruct span; [done|].
  rewrite Hm. simpl. by rewrite <-app_assoc.
Qed.

Lemma jwt_sign_inv now payload secret expiresIn t :
  jwt_sign HS256 ms now payload secret expiresIn = Normal t →
  ∃ s exp, secret = Some s
    ∧ header t = jwt_header
    ∧ claims t = List.filter serialised
                   (payload ++ [("iat", VNum now)] ++ [("exp", VNum exp)])
    ∧ signature t = HS256 s (header t, claims t).
Proof.
  unfold jwt_sign. intros Hs.
  destruct secret as [[|c s]|]; try done.
  destruct (parses_as_private_key (String c s)); [done|].
  destruct expiresIn as [[|c' x]|]; try done.
  destruct (timespan _ _ _) as [exp|]; [|done].
  simplify_eq. exists (String c s), exp. simpl. by rewrite <-app_assoc.
Qed.

(** Tokens issued at different seconds differ, whatever signs them. *)
Lemma jwt_sign_clock now1 now2 payload secret expiresIn t1 t2 :
  jwt_sign HS256 ms now1 payload secret expiresIn = Normal t1 →
  jwt_sign HS256 ms now2 payload secret expiresIn = Normal t2 →
  now1 ≠ now2 → t1 ≠ t2.
Proof.
  intros (s1 & e1 & _ & _ & Hc1 & _)%jwt_sign_inv (s2 & e2 & _ & _ & Hc2 & _)%jwt_sign_inv Hne ->.
  rewrite Hc1 in Hc2. rewrite !List.filter_app in Hc2. simpl in Hc2.
  apply app_inv_head in Hc2. by simplify_eq.
Qed.

(** C5, as the code has it.  With the two secrets and the two time
    spans configured, for a record that has its [email], [username] and
    [fullName], both tokens are issued; the access token decodes to the
    claims [_id], [email], [username], [fullName] with the record's
    values followed by [iat] and [exp], the refresh token to [_id]
    followed by [iat] and [exp], and neither carries any other
    application claim.  The identifier travels under the name [_id]. *)
Theorem token_payloads env now d sa ma sr mr email username fullName :
  configured ms env "ACCESS_TOKEN_SECRET" "ACCESS_TOKEN_EXPIRY" sa ma →
  configured ms env "REFRESH_TOKEN_SECRET" "REFRESH_TOKEN_EXPIRY" sr mr →
  values d !! "email" = Some email →
  values d !! "username" = Some username →
  values d !! "fullName" = Some fullName →
  ∃ ta tr,
    generateAccessToken HS256 ms env now d = Normal ta
    ∧ generateRefreshToken HS256 ms env now d = Normal tr
    ∧ jwt_decode ta = [ ("_id", VStr (_id d)); ("email", VStr email);
                        ("username", VStr username); ("fullName", VStr fullName);
                        ("iat", VNum now); ("exp", VNum (now + ma / 1000)) ]
    ∧ jwt_decode tr = [ ("_id", VStr (_id d));
                        ("iat", VNum now); ("exp", VNum (now + mr / 1000)) ]
    ∧ decodes_to ["_id"; "email"; "username"; "fullName"] ta
    ∧ decodes_to ["_id"] tr.
Proof.
  intros (Hsa & Hsa' & Hka & xa & Hxa & Hxa' & Hma)
         (Hsr & Hsr' & Hkr & xr & Hxr & Hxr' & Hmr) He Hu Hf.
  unfold generateAccessToken, generateRefreshToken, property.
  rewrite Hsa, Hxa, Hsr, Hxr, He, Hu, Hf.
  rewrite (jwt_sign_configured now _ sa xa ma), (jwt_sign_configured now _ sr xr mr) by done.
  eexists _, _. split; [reflexivity|]. split; [reflexivity|].
  unfold decodes_to, application_claims, jwt_decode. simpl. done.
Qed.

(** C7, as the code has it.  Each token is determined by the fields of
    the record that go into its payload, the secret and time span it reads
    from the environment, and the clock second of the call: records that
    agree on those fields and environments that agree on those two
    variables give the same token at the same second, whatever else
    differs. *)
Theorem tokens_determined_by env1 env2 now d1 d2 :
  _id d1 = _id d2 →
  (env1 !! "ACCESS_TOKEN_SECRET" = env2 !! "ACCESS_TOKEN_SECRET"
   ∧ env1 !! "ACCESS_TOKEN_EXPIRY" = env2 !! "ACCESS_TOKEN_EXPIRY"
   ∧ values d1 !! "email" = values d2 !! "email"
   ∧ values d1 !! "username" = values d2 !! "username"
   ∧ values d1 !! "fullName" = values d2 !! "fullName" →
   generateAccessToken HS256 ms env1 now d1 = generateAccessToken HS256 ms env2 now d2)
  ∧ (env1 !! "REFRESH_TOKEN_SECRET" = env2 !! "REFRESH_TOKEN_SECRET"
     ∧ env1 !! "REFRESH_TOKEN_EXPIRY" = env2 !! "REFRESH_TOKEN_EXPIRY" →
     generateRefreshToken HS256 ms env1 now d1 = generateRefreshToken HS256 ms env2 now d2).
Proof.
  intros Hid. unfold generateAccessToken, generateRefreshToken, property. split.
  - intros (-> & -> & -> & -> & ->). by rewrite Hid.
  - intros (-> & ->). by rewrite Hid.
Qed.

(** The same record and the same environment at two different seconds
    give two different access tokens, and two different refresh tokens. *)
Lemma tokens_change_with_clock env now1 now2 d ta1 ta2 tr1 tr2 :
  now1 ≠ now2 →
  (generateAccessToken HS256 ms env now1 d = Normal ta1 →
   generateAccessToken HS256 ms env now2 d = Normal ta2 → ta1 ≠ ta2)
  ∧ (generateRefreshToken HS256 ms env now1 d = Normal tr1 →
     generateRefreshToken HS256 ms env now2 d = Normal tr2 → tr1 ≠ tr2).
Proof.
  intros Hne. split; intros H1 H2; eapply jwt_sign_clock; eauto.
Qed.

Lemma assoc_None {A : Type} (k : string) (l : list (string * A)) :
  k ∉ l.*1 → assoc k l = None.
Proof.
  induction l as [|[k' a] l IH]; [done|]. simpl.
  intros [Hne Hl]%not_elem_of_cons. rewrite bool_decide_eq_false_2 by done. auto.
Qed.

Lemma filter_names {A : Type} (f : string * A → bool) (l : list (string * A)) k :
  k ∈ (List.filter f l).*1 → k ∈ l.*1.
Proof.
  intros ([k' a] & -> & Hin)%list_elem_of_fmap.
  apply list_elem_of_In, filter_In in Hin as [Hin _].
  apply list_elem_of_fmap. exists (k', a). split; [done|]. by apply list_elem_of_In.
Qed.

Lemma assoc_exp payload now exp :
  "exp" ∉ payload.*1 →
  assoc "exp" (List.filter serialised
                 (payload ++ [("iat", VNum now)] ++ [("exp", VNum exp)]))
  = Some (VNum exp).
Proof.
  induction payload as [|[k v] l IH]; [done|].
  intros [Hne Hl]%not_elem_of_cons. simpl.
  destruct (serialised (k, v)); [|auto]. simpl.
  rewrite bool_decide_eq_false_2 by done. auto.
Qed.

(** Settles membership of a name in a list of names written out. *)
Ltac names :=
  let H := fresh in
  intros H; apply list_elem_of_In in H; simpl in H;
  repeat (destruct H as [H|H]; [done|]); done.

(** X14. Each token is issued exactly when its secret is set, not empty
    and not a private key, and its time span is set, not empty and
    readable as a span; with anything else in the environment the method
    throws. *)
Lemma tokens_issued_iff_configured env now d :
  ((∃ t, generateAccessToken HS256 ms env now d = Normal t)
   ↔ ∃ s m, configured ms env "ACCESS_TOKEN_SECRET" "ACCESS_TOKEN_EXPIRY" s m)
  ∧ ((∃ t, generateRefreshToken HS256 ms env now d = Normal t)
     ↔ ∃ s m, configured ms env "REFRESH_TOKEN_SECRET" "REFRESH_TOKEN_EXPIRY" s m).
Proof.
  assert (∀ payload secret span,
            (∃ t, jwt_sign HS256 ms now payload secret span = Normal t)
            ↔ ∃ s m, secret = Some s ∧ s ≠ "" ∧ parses_as_private_key s = false
                     ∧ ∃ x, span = Some x ∧ x ≠ "" ∧ ms x = Some m) as Hiff.
  { intros payload secret span. split.
    - intros [t Ht]. unfold jwt_sign, timespan in Ht.
      destruct secret as [[|c s]|]; try done.
      destruct (parses_as_private_key (String c s)) eqn:Hk; [done|].
      destruct span as [[|c' x]|]; try done.
      destruct (ms (String c' x)) as [m|] eqn:Hm; [|done].
      exists (String c s), m. split_and!; try done.
      exists (String c' x). by split_and!.
    - intros (s & m & -> & Hs & Hk & x & -> & Hx & Hm).
      rewrite (jwt_sign_configured now payload s x m Hs Hk Hx Hm). eauto. }
  unfold generateAccessToken, generateRefreshToken, configured. split; apply Hiff.
Qed.

(** X16. Whatever the record holds, the claims of a token issued by
    either method are drawn from [_id], [email], [username], [fullName],
    [iat] and [exp]: the password hash and the stored refresh token never
    enter a token. *)
Lemma tokens_never_carry_credentials env now d t :
  generateAccessToken HS256 ms env now d = Normal t
  ∨ generateRefreshToken HS256 ms env now d = Normal t →
  (jwt_decode t).*1 ⊆ ["_id"; "email"; "username"; "fullName"; "iat"; "exp"]
  ∧ assoc "password" (jwt_decode t) = None
  ∧ assoc "refreshToken" (jwt_decode t) = None.
Proof.
  clear toLowerCase parses_as_public_key.
  unfold generateAccessToken, generateRefreshToken, jwt_decode.
  intros [(s & exp & _ & _ & Hc & _)%jwt_sign_inv|(s & exp & _ & _ & Hc & _)%jwt_sign_inv];
    rewrite Hc; (split_and!;
      [ intros k Hk%filter_names; apply list_elem_of_In in Hk; simpl in Hk;
        apply list_elem_of_In; simpl; tauto
      | apply assoc_None; intros Hk%filter_names; revert Hk; names
      | apply assoc_None; intros Hk%filter_names; revert Hk; names ]).
Qed.

(** A token whose signature a secret gives verifies against that secret
    until it expires, when the secret is not empty and is not read as a
    public key. *)
Lemma jwt_verify_valid clock t secret :
  secret ≠ "" → parses_as_public_key secret = false →
  signature_valid HS256 t secret = true →
  jwt_verify HS256 parses_as_public_key clock t (Some secret)
  = match assoc "exp" (claims t) with
    | Some (VNum exp) =>
        if exp <=? clock then Throw (VStr "jwt expired") else Normal (claims t)
    | _ => Normal (claims t)
    end.
Proof.
  intros Hs Hk Hv. unfold jwt_verify. destruct secret; [done|]. by rewrite Hk, Hv.
Qed.

(** C8, as the code has it.  A token is signed with the secret of its
    own kind and its signature is valid under that secret.  Under the other
    secret the signature is valid exactly when the two secrets sign the
    token's header and claims alike, which two distinct secrets can do;
    when they sign them differently, verifying the token against the
    other secret fails at any time. *)
Theorem tokens_under_the_other_secret env now d sa sr t clock :
  env !! "ACCESS_TOKEN_SECRET" = Some sa →
  env !! "REFRESH_TOKEN_SECRET" = Some sr →
  (generateAccessToken HS256 ms env now d = Normal t →
     signature_valid HS256 t sa = true
     ∧ (signature_valid HS256 t sr = true
        ↔ HS256 sr (header t, claims t) = HS256 sa (header t, claims t))
     ∧ (HS256 sr (header t, claims t) ≠ HS256 sa (header t, claims t) →
        ∃ e, jwt_verify HS256 parses_as_public_key clock t
               (env !! "REFRESH_TOKEN_SECRET") = Throw e))
  ∧ (generateRefreshToken HS256 ms env now d = Normal t →
       signature_valid HS256 t sr = true
       ∧ (signature_valid HS256 t sa = true
          ↔ HS256 sa (header t, claims t) = HS256 sr (header t, claims t))
       ∧ (HS256 sa (header t, claims t) ≠ HS256 sr (header t, claims t) →
          ∃ e, jwt_verify HS256 parses_as_public_key clock t
                 (env !! "ACCESS_TOKEN_SECRET") = Throw e)).
Proof.
  intros Ha Hr. unfold generateAccessToken, generateRefreshToken.
  rewrite Ha, Hr.
  split; intros (s & exp & [= <-] & _ & _ & Hsig)%jwt_sign_inv;
    unfold jwt_verify, signature_valid; rewrite Hsig; split_and!.
  - by apply bool_decide_eq_true.
  - rewrite bool_decide_eq_true. split; intros Heq; by rewrite Heq.
  - intros Hne. destruct sr as [|c sr]; [by eexists|].
    destruct (parses_as_public_key _); [by eexists|].
    rewrite bool_decide_eq_false_2; [by eexists|]. by intros Heq.
  - by apply bool_decide_eq_true.
  - rewrite bool_decide_eq_true. split; intros Heq; by rewrite Heq.
  - intros Hne. destruct sa as [|c sa]; [by eexists|].
    destruct (parses_as_public_key _); [by eexists|].
    rewrite bool_decide_eq_false_2; [by eexists|]. by intros Heq.
Qed.

End TokenFacts.

End Model.

(** *** The model run on the specification's example

    The language's [toLowerCase] agrees with [ascii_toLowerCase] on the
    strings of the example, which are ASCII. *)

Definition alice_id : string := "65f0c0ffee0000000000a11c".
Definition alice_new : Document := new_User ascii_toLowerCase alice_id alice_input.
Definition alice_db : gmap string Stored :=
  {[ alice_id := mkStored (values alice) [] 1700000000 1700000000 ]}.

(** The same record with another credential, session and dirty state. *)
Definition alice_later : Document :=
  mkDocument alice_id
    (<["refreshToken" := "r1"]> (<["password" := "$2b$pepper$hunter2"]> (values alice)))
    ["v1"] {["refreshToken"]} false.

Lemma ends_with_app pre suffix : ends_with suffix (pre +:+ suffix) = true.
Proof.
  induction pre as [|c pre IH].
  - change ("" +:+ suffix) with suffix.
    destruct suffix; unfold ends_with; by rewrite bool_decide_eq_true_2.
  - change (String c pre +:+ suffix) with (String c (pre +:+ suffix)).
    unfold ends_with; fold ends_with. rewrite IH. apply orb_true_r.
Qed.

Lemma sample_compare_hash salt data rounds :
  sample_compare data (sample_hash salt data rounds) = true.
Proof.
  unfold sample_compare, sample_hash.
  change ("$2b$" +:+ (salt +:+ String "$" data))
    with (("$2b$" +:+ "") +:+ (salt +:+ String "$" data)).
  generalize ("$2b$" +:+ ""). intros pre.
  induction pre as [|c pre IH].
  - change ("" +:+ ?x) with x. apply ends_with_app.
  - change (String c pre +:+ ?x) with (String c (pre +:+ x)).
    unfold ends_with; fold ends_with. rewrite IH. apply orb_true_r.
Qed.

Lemma length_app pre s :
  String.length (pre +:+ s) = (String.length pre + String.length s)%nat.
Proof.
  induction pre as [|c pre IH]; [done|].
  change (String c pre +:+ s) with (String c (pre +:+ s)). simpl. by rewrite IH.
Qed.

Lemma sample_hash_not_identity salt data rounds :
  sample_hash salt data rounds ≠ data.
Proof.
  unfold sample_hash. intros Heq. apply (f_equal String.length) in Heq.
  rewrite !length_app in Heq. simpl in Heq. lia.
Qed.

Example alice_registration :
  create ascii_toLowerCase sample_hash alice_id alice_input (Salted "salt") 1700000000 ∅
  = (Normal alice, alice_db).
Proof. vm_compute. reflexivity. Qed.

Example alice_wrong_password :
  isPasswordCorrect sample_compare alice "wrong" = Normal false.
Proof. vm_compute. reflexivity. Qed.

(** The registration of the example, through the general statement: the
    password "secret123" is stored hashed and verifies. *)
Lemma alice_password_hashed :
  save ascii_toLowerCase sample_hash (Salted "salt") 1700000000 alice_new ∅
    = (Normal alice, alice_db)
  ∧ isModified "password" alice_new = true
  ∧ ∃ salt plain,
      Salted "salt" = Salted salt
      ∧ values alice_new !! "password" = Some plain
      ∧ stored_password alice_db (_id alice_new) = Some (sample_hash salt plain 10)
      ∧ stored_password alice_db (_id alice_new) ≠ Some plain
      ∧ isPasswordCorrect sample_compare alice plain = Normal true
      ∧ ∀ d'', findById (_id alice_new) alice_db = Some d'' →
               isPasswordCorrect sample_compare d'' plain = Normal true.
Proof.
  split; [vm_compute; reflexivity|]. split; [vm_compute; reflexivity|].
  apply (save_stores_password_hash ascii_toLowerCase sample_hash sample_compare
           sample_compare_hash sample_hash_not_identity
           (Salted "salt") 1700000000 alice_new ∅ alice alice_db);
    vm_compute; reflexivity.
Defined.

(** The stored record saved again with only its session changed: the
    stored hash stays. *)
Lemma alice_resaved_keeps_hash :
  isNew alice_later = false
  ∧ isModified "password" alice_later = false
  ∧ pre_save ascii_toLowerCase sample_hash (Salted "pepper") (mkHookState alice_later [])
      = (Normal VUndefined, mkHookState alice_later [VUndefined])
  ∧ run_pre_save ascii_toLowerCase sample_hash (Salted "pepper") alice_later
      = (None, alice_later)
  ∧ ∀ id, stored_password
            (save ascii_toLowerCase sample_hash (Salted "pepper") 1700000600
               alice_later alice_db).2 id
          = stored_password alice_db id.
Proof.
  split; [reflexivity|]. split; [vm_compute; reflexivity|].
  apply (save_unmodified_password_untouched ascii_toLowerCase sample_hash
           (Salted "pepper") 1700000600 alice_later alice_db);
    vm_compute; reflexivity.
Defined.

(** The registration of the example with the hashing failing. *)
Lemma alice_hash_failure :
  validate alice_new = []
  ∧ isModified "password" alice_new = true
  ∧ pre_save ascii_toLowerCase sample_hash (Failing (VStr "crypto failure"))
      (mkHookState alice_new [])
      = (Throw (VStr "crypto failure"), mkHookState alice_new [])
  ∧ save ascii_toLowerCase sample_hash (Failing (VStr "crypto failure")) 1700000000
      alice_new ∅
      = (Throw (VStr "crypto failure"), ∅).
Proof.
  split; [vm_compute; reflexivity|]. split; [vm_compute; reflexivity|].
  apply (save_hash_failure_aborts ascii_toLowerCase sample_hash
           (VStr "crypto failure") 1700000000 alice_new ∅);
    vm_compute; reflexivity.
Defined.

(** An e-mail address in upper case between a no-break space and a line
    separator. *)
Definition padded_email : string :=
  text [0xc2; 0xa0] +:+ " ALICE@X.COM" +:+ text [0xe2; 0x80; 0xa8].

(** The example of the specification: "Alice" and "A@x.com" are stored as
    "alice" and "a@x.com"; and the stored record given another e-mail
    address and saved has it stored trimmed and in lower case. *)
Lemma alice_identifiers_persisted :
  create ascii_toLowerCase sample_hash alice_id alice_input (Salted "salt") 1700000000 ∅
    = (Normal alice, alice_db)
  ∧ stored_value alice_db alice_id "username" = Some "alice"
  ∧ stored_value alice_db alice_id "email" = Some "a@x.com"
  ∧ findById alice_id alice_db = Some alice
  ∧ stored_value
      (save ascii_toLowerCase sample_hash (Salted "pepper") 1700000600
         (doc_set ascii_toLowerCase "email" padded_email alice) alice_db).2
      alice_id "email" = Some "alice@x.com".
Proof.
  split; [vm_compute; reflexivity|].
  destruct (persisted_identifiers_trimmed_and_lowercased ascii_toLowerCase sample_hash)
    as (_ & Hsave & Hexample).
  destruct (Hexample (λ s _, eq_refl) (Salted "salt") 1700000000 alice_id ∅ alice alice_db)
    as [Hu He]; [vm_compute; reflexivity|].
  split; [exact Hu|]. split; [exact He|].
  split; [vm_compute; reflexivity|].
  destruct (save ascii_toLowerCase sample_hash (Salted "pepper") 1700000600
              (doc_set ascii_toLowerCase "email" padded_email alice) alice_db)
    as [[d'|e] db'] eqn:Hsave'; [|vm_compute in Hsave'; discriminate].
  apply (Hsave "email" padded_email (Salted "pepper") 1700000600 alice_id alice_db
           alice d' db');
    [by right|vm_compute; reflexivity|exact Hsave'].
Defined.

(** The tokens of the example record at one second. *)
Lemma alice_token_payloads :
  ∃ ta tr,
    generateAccessToken pem_armoured sample_HS256 sample_ms sample_env 1700000000 alice
      = Normal ta
    ∧ generateRefreshToken pem_armoured sample_HS256 sample_ms sample_env 1700000000 alice
      = Normal tr
    ∧ jwt_decode ta = [ ("_id", VStr alice_id); ("email", VStr "a@x.com");
                        ("username", VStr "alice"); ("fullName", VStr "Alice A");
                        ("iat", VNum 1700000000); ("exp", VNum 1700086400) ]
    ∧ jwt_decode tr = [ ("_id", VStr alice_id);
                        ("iat", VNum 1700000000); ("exp", VNum 1700864000) ]
    ∧ decodes_to ["_id"; "email"; "username"; "fullName"] ta
    ∧ decodes_to ["_id"] tr.
Proof.
  apply (token_payloads pem_armoured sample_HS256 sample_ms sample_env 1700000000 alice
           "access-secret" 86400000 "refresh-secret" 864000000
           "a@x.com" "alice" "Alice A");
    try (vm_compute; reflexivity).
  - split; [vm_compute; reflexivity|]. split; [done|].
    split; [vm_compute; reflexivity|].
    exists "1d". split; [vm_compute; reflexivity|]. split; [done|reflexivity].
  - split; [vm_compute; reflexivity|]. split; [done|].
    split; [vm_compute; reflexivity|].
    exists "10d". split; [vm_compute; reflexivity|]. split; [done|reflexivity].
Defined.

(** C5, as stated, at the example record: the decoded access token has no
    claim named [id], so it does not decode to the claims [id], [email],
    [username], [fullName]. *)
Lemma access_token_has_no_id_claim :
  ∃ t, generateAccessToken pem_armoured sample_HS256 sample_ms sample_env 1700000000 alice
         = Normal t
       ∧ assoc "id" (jwt_decode t) = None
       ∧ ¬ decodes_to ["id"; "email"; "username"; "fullName"] t.
Proof.
  eexists. split; [vm_compute; reflexivity|]. split; [vm_compute; reflexivity|].
  unfold decodes_to. intros Hp.
  assert ("id" ∈ ["_id"; "email"; "username"; "fullName"]) as Hin.
  { rewrite Hp. apply list_elem_of_here. }
  by repeat (apply elem_of_cons in Hin as [Hin|Hin]; [done|]); apply elem_of_nil in Hin.
Qed.

(** Two records and two environments that agree on what the tokens read. *)
Lemma alice_tokens_determined :
  _id alice = _id alice_later
  ∧ generateAccessToken pem_armoured sample_HS256 sample_ms sample_env 1700000000 alice
    = generateAccessToken pem_armoured sample_HS256 sample_ms
        (<["CORS_ORIGIN" := "https://example.org"]> sample_env) 1700000000 alice_later
  ∧ generateRefreshToken pem_armoured sample_HS256 sample_ms sample_env 1700000000 alice
    = generateRefreshToken pem_armoured sample_HS256 sample_ms
        (<["CORS_ORIGIN" := "https://example.org"]> sample_env) 1700000000 alice_later.
Proof.
  split; [reflexivity|].
  destruct (tokens_determined_by pem_armoured sample_HS256 sample_ms sample_env
              (<["CORS_ORIGIN" := "https://example.org"]> sample_env)
              1700000000 alice alice_later eq_refl) as [Ha Hr].
  split; [apply Ha|apply Hr]; vm_compute; repeat split.
Defined.

(** C7, as stated, at the example record: the same record, secret and
    time span at two consecutive seconds give two different tokens. *)
Lemma access_token_changes_with_clock :
  generateAccessToken pem_armoured sample_HS256 sample_ms sample_env 1700000000 alice
  ≠ generateAccessToken pem_armoured sample_HS256 sample_ms sample_env 1700000001 alice
  ∧ generateRefreshToken pem_armoured sample_HS256 sample_ms sample_env 1700000000 alice
    ≠ generateRefreshToken pem_armoured sample_HS256 sample_ms sample_env 1700000001 alice.
Proof. split; vm_compute; intros [=]. Qed.

(** *** Access and refresh tokens under HMAC-SHA256 *)

(** The tokens of the example record, signed as the library signs them. *)
Definition alice_claims : list (string * JSVal) :=
  [ ("_id", VStr alice_id); ("email", VStr "a@x.com");
    ("username", VStr "alice"); ("fullName", VStr "Alice A");
    ("iat", VNum 1700000000); ("exp", VNum 1700086400) ].

Definition alice_refresh_claims : list (string * JSVal) :=
  [ ("_id", VStr alice_id); ("iat", VNum 1700000000); ("exp", VNum 1700864000) ].

Definition alice_signed_access_token : Token :=
  mkToken jwt_header alice_claims
    (HMAC_HS256 sample_encode "access-secret" (jwt_header, alice_claims)).

Definition alice_signed_refresh_token : Token :=
  mkToken jwt_header alice_refresh_claims
    (HMAC_HS256 sample_encode "refresh-secret" (jwt_header, alice_refresh_claims)).

(** The two secrets of the example sign differently: each token of the
    example is refused under the other secret. *)
Lemma alice_tokens_under_the_other_secret :
  sample_env !! "ACCESS_TOKEN_SECRET" = Some "access-secret"
  ∧ sample_env !! "REFRESH_TOKEN_SECRET" = Some "refresh-secret"
  ∧ generateAccessToken pem_armoured (HMAC_HS256 sample_encode) sample_ms sample_env
      1700000000 alice = Normal alice_signed_access_token
  ∧ generateRefreshToken pem_armoured (HMAC_HS256 sample_encode) sample_ms sample_env
      1700000000 alice = Normal alice_signed_refresh_token
  ∧ signature_valid (HMAC_HS256 sample_encode) alice_signed_access_token "access-secret"
    = true
  ∧ signature_valid (HMAC_HS256 sample_encode) alice_signed_refresh_token "refresh-secret"
    = true
  ∧ (∃ e, jwt_verify (HMAC_HS256 sample_encode) pem_armoured 1700000001
            alice_signed_access_token (sample_env !! "REFRESH_TOKEN_SECRET") = Throw e)
  ∧ (∃ e, jwt_verify (HMAC_HS256 sample_encode) pem_armoured 1700000001
            alice_signed_refresh_token (sample_env !! "ACCESS_TOKEN_SECRET") = Throw e).
Proof.
  assert (sample_env !! "ACCESS_TOKEN_SECRET" = Some "access-secret") as Hsa
    by (vm_compute; reflexivity).
  assert (sample_env !! "REFRESH_TOKEN_SECRET" = Some "refresh-secret") as Hsr
    by (vm_compute; reflexivity).
  assert (generateAccessToken pem_armoured (HMAC_HS256 sample_encode) sample_ms sample_env
            1700000000 alice = Normal alice_signed_access_token) as Ha
    by (vm_compute; reflexivity).
  assert (generateRefreshToken pem_armoured (HMAC_HS256 sample_encode) sample_ms sample_env
            1700000000 alice = Normal alice_signed_refresh_token) as Hr
    by (vm_compute; reflexivity).
  destruct (tokens_under_the_other_secret pem_armoured (HMAC_HS256 sample_encode)
              sample_ms pem_armoured sample_env 1700000000 alice
              "access-secret" "refresh-secret" alice_signed_access_token 1700000001
              Hsa Hsr) as [Haccess _].
  destruct (tokens_under_the_other_secret pem_armoured (HMAC_HS256 sample_encode)
              sample_ms pem_armoured sample_env 1700000000 alice
              "access-secret" "refresh-secret" alice_signed_refresh_token 1700000001
              Hsa Hsr) as [_ Hrefresh].
  destruct (Haccess Ha) as (Hva & _ & Hfa).
  destruct (Hrefresh Hr) as (Hvr & _ & Hfr).
  split_and!; [exact Hsa|exact Hsr|exact Ha|exact Hr|exact Hva|exact Hvr| |].
  - apply Hfa. vm_compute. intros [=].
  - apply Hfr. vm_compute. intros [=].
Defined.

(** A secret of 73 characters, and the secret that is the SHA-256 digest
    of its bytes, written as text: 32 bytes that are well-formed UTF-8. *)
Definition long_secret : string :=
  "access-token-secret-of-the-video-platform-backend-do-not-share-0104224562".

Definition digest_secret : string :=
  text [ 0xcf; 0xbd; 0x4d; 0x20; 0x0f; 0x4a; 0xd9; 0x8d;
         0x68; 0xe1; 0x88; 0xb2; 0x13; 0x5f; 0x22; 0x37;
         0x07; 0x48; 0x55; 0x11; 0x12; 0x2c; 0x3f; 0xc9;
         0x90; 0x7e; 0xcc; 0x90; 0x48; 0x23; 0x13; 0x5e ].

Definition twin_env : gmap string string :=
  list_to_map [ ("ACCESS_TOKEN_SECRET", long_secret);
                ("ACCESS_TOKEN_EXPIRY", "1d");
                ("REFRESH_TOKEN_SECRET", digest_secret);
                ("REFRESH_TOKEN_EXPIRY", "10d") ].

Lemma digest_secret_hash : bytes digest_secret = SHA256.hash (bytes long_secret).
Proof. vm_compute. reflexivity. Qed.

(** HMAC replaces a key longer than a block of 64 bytes by its digest:
    the two secrets give the same key block. *)
Lemma twin_key_block :
  SHA256.key_block (bytes long_secret) = SHA256.key_block (bytes digest_secret).
Proof. vm_compute. reflexivity. Qed.

Lemma twin_secrets_sign_alike encode input :
  HMAC_HS256 encode long_secret input = HMAC_HS256 encode digest_secret input.
Proof.
  unfold HMAC_HS256. by rewrite (SHA256.hmac_key_block _ _ _ twin_key_block).
Qed.

(** What follows holds of any signature under which the two secrets
    sign alike. *)
Lemma twin_tokens HS256 :
  generateAccessToken pem_armoured HS256 sample_ms twin_env 1700000000 alice
    = Normal (mkToken jwt_header alice_claims
                (HS256 long_secret (jwt_header, alice_claims)))
  ∧ generateRefreshToken pem_armoured HS256 sample_ms twin_env 1700000000 alice
    = Normal (mkToken jwt_header alice_refresh_claims
                (HS256 digest_secret (jwt_header, alice_refresh_claims))).
Proof.
  unfold generateAccessToken, generateRefreshToken.
  assert (twin_env !! "ACCESS_TOKEN_SECRET" = Some long_secret) as ->
    by (vm_compute; reflexivity).
  assert (twin_env !! "REFRESH_TOKEN_SECRET" = Some digest_secret) as ->
    by (vm_compute; reflexivity).
  assert (twin_env !! "ACCESS_TOKEN_EXPIRY" = Some "1d") as ->
    by (vm_compute; reflexivity).
  assert (twin_env !! "REFRESH_TOKEN_EXPIRY" = Some "10d") as ->
    by (vm_compute; reflexivity).
  rewrite (jwt_sign_configured pem_armoured HS256 sample_ms
             1700000000 _ long_secret "1d" 86400000);
    [|done|vm_compute; reflexivity|done|reflexivity].
  rewrite (jwt_sign_configured pem_armoured HS256 sample_ms
             1700000000 _ digest_secret "10d" 864000000);
    [|vm_compute; intros [=]|vm_compute; reflexivity|done|reflexivity].
  done.
Qed.

Lemma twin_tokens_verify HS256 :
  (∀ input, HS256 long_secret input = HS256 digest_secret input) →
  jwt_verify HS256 pem_armoured 1700000001
    (mkToken jwt_header alice_claims (HS256 long_secret (jwt_header, alice_claims)))
    (twin_env !! "REFRESH_TOKEN_SECRET")
  = Normal alice_claims
  ∧ jwt_verify HS256 pem_armoured 1700000001
      (mkToken jwt_header alice_refresh_claims
         (HS256 digest_secret (jwt_header, alice_refresh_claims)))
      (twin_env !! "ACCESS_TOKEN_SECRET")
    = Normal alice_refresh_claims.
Proof.
  intros Hsame.
  assert (twin_env !! "ACCESS_TOKEN_SECRET" = Some long_secret) as ->
    by (vm_compute; reflexivity).
  assert (twin_env !! "REFRESH_TOKEN_SECRET" = Some digest_secret) as ->
    by (vm_compute; reflexivity).
  split.
  - rewrite jwt_verify_valid; [reflexivity|vm_compute; intros [=]|vm_compute; reflexivity|].
    apply bool_decide_eq_true. cbn [signature header claims]. apply Hsame.
  - rewrite jwt_verify_valid; [reflexivity|done|vm_compute; reflexivity|].
    apply bool_decide_eq_true. cbn [signature header claims]. symmetry. apply Hsame.
Qed.

(** C8, as stated.  The two secrets are distinct, and both can be set
    in the environment; yet, whatever the serialisation of header and
    claims, the access token issued under the one verifies against the
    other, and so does the refresh token. *)
Lemma distinct_secrets_verify_each_other :
  long_secret ≠ digest_secret
  ∧ environment_text (bytes long_secret) = true
  ∧ environment_text (bytes digest_secret) = true
  ∧ ∀ encode, ∃ ta tr,
      generateAccessToken pem_armoured (HMAC_HS256 encode) sample_ms twin_env
        1700000000 alice = Normal ta
      ∧ generateRefreshToken pem_armoured (HMAC_HS256 encode) sample_ms twin_env
          1700000000 alice = Normal tr
      ∧ jwt_verify (HMAC_HS256 encode) pem_armoured 1700000001 ta
          (twin_env !! "REFRESH_TOKEN_SECRET") = Normal (jwt_decode ta)
      ∧ jwt_verify (HMAC_HS256 encode) pem_armoured 1700000001 tr
          (twin_env !! "ACCESS_TOKEN_SECRET") = Normal (jwt_decode tr).
Proof.
  split; [vm_compute; intros [=]|].
  split; [vm_compute; reflexivity|]. split; [vm_compute; reflexivity|].
  intros encode.
  destruct (twin_tokens (HMAC_HS256 encode)) as [Ha Hr].
  destruct (twin_tokens_verify (HMAC_HS256 encode) (twin_secrets_sign_alike encode))
    as [Hva Hvr].
  eexists _, _. split; [exact Ha|]. split; [exact Hr|]. split; [exact Hva|exact Hvr].
Qed.

(** *** Further runs of the model *)

(** The example's registration with the name between a no-break space and
    an ideographic space, and with a user name of white space only. *)
Definition padded_input : gmap string string :=
  <["fullName" := text [0xc2; 0xa0] +:+ "  Alice A " +:+ text [0xe3; 0x80; 0x80]]>
    alice_input.
Definition blank_input : gmap string string :=
  <["username" := text [0x20; 0xc2; 0xa0; 0x09; 0xe2; 0x80; 0xa8; 0xef; 0xbb; 0xbf]]>
    alice_input.

Definition alice_access_token : Token :=
  mkToken jwt_header alice_claims "access-secret".

Lemma alice_hashing_frame :
  ∃ d', pre_save ascii_toLowerCase sample_hash (Salted "salt") (mkHookState alice_new [])
          = (Normal VUndefined, mkHookState d' [VUndefined])
        ∧ values d' !! "password" = Some (sample_hash "salt" "secret123" 10)
        ∧ (∀ p, p ≠ "password" → values d' !! p = values alice_new !! p)
        ∧ _id d' = _id alice_new ∧ isNew d' = isNew alice_new
        ∧ watchHistory d' = watchHistory alice_new
        ∧ ∀ p, isModified p d' = isModified p alice_new.
Proof.
  apply (pre_save_hashing_frame ascii_toLowerCase sample_hash "salt" alice_new "secret123");
    vm_compute; reflexivity.
Defined.

Lemma alice_saved_again :
  save ascii_toLowerCase sample_hash (Salted "pepper") 1700000600 alice alice_db
  = (Normal alice, alice_db).
Proof.
  apply (save_again_writes_nothing ascii_toLowerCase sample_hash
           (Salted "salt") (Salted "pepper")
           1700000000 1700000600 alice_new ∅ alice alice_db).
  vm_compute. reflexivity.
Defined.

Lemma blank_username_refused :
  ∃ paths, "username" ∈ paths
           ∧ create ascii_toLowerCase sample_hash alice_id blank_input (Salted "salt")
               1700000000 ∅
             = (Throw (ValidationError paths), ∅).
Proof.
  apply (create_requires ascii_toLowerCase sample_hash (Salted "salt") 1700000000
           alice_id blank_input ∅ "username" (StringOpts true true true true true)).
  - reflexivity.
  - reflexivity.
  - intros v Hv. vm_compute in Hv. injection Hv as <-. vm_compute. reflexivity.
Defined.

Lemma padded_name_stored_trimmed :
  create ascii_toLowerCase sample_hash alice_id padded_input (Salted "salt") 1700000000 ∅
    = (Normal alice, alice_db)
  ∧ ∃ r, alice_db !! alice_id = Some r
         ∧ s_values r !! "fullName" = Some "Alice A"
         ∧ s_values r !! "avatar" = Some "http://x/a.png".
Proof.
  split; [vm_compute; reflexivity|].
  apply (create_stores_profile ascii_toLowerCase sample_hash (Salted "salt") 1700000000
           alice_id padded_input ∅ alice alice_db
           (text [0xc2; 0xa0] +:+ "  Alice A " +:+ text [0xe3; 0x80; 0x80])
           "http://x/a.png");
    vm_compute; reflexivity.
Defined.

Lemma alice_store_normalised :
  store_normalised ascii_toLowerCase
    (save ascii_toLowerCase sample_hash (Salted "salt") 1700000000 alice_new ∅).2.
Proof.
  apply (save_keeps_identifiers_normalised ascii_toLowerCase sample_hash
           (Salted "salt") 1700000000 alice_new ∅).
  - apply new_User_identifiers.
  - intros id r Hr. by rewrite lookup_empty in Hr.
Defined.

Lemma alice_token_carries_no_credentials :
  (jwt_decode alice_access_token).*1 ⊆ ["_id"; "email"; "username"; "fullName"; "iat"; "exp"]
  ∧ assoc "password" (jwt_decode alice_access_token) = None
  ∧ assoc "refreshToken" (jwt_decode alice_access_token) = None.
Proof.
  apply (tokens_never_carry_credentials pem_armoured sample_HS256 sample_ms sample_env
           1700000000 alice_later alice_access_token).
  left. vm_compute. reflexivity.
Defined.

Lemma alice_refresh_token_keeps_password :
  ∃ d, findById alice_id
         (save ascii_toLowerCase sample_hash (Salted "pepper") 1700000600
            (doc_set ascii_toLowerCase "refreshToken" "r1" alice) alice_db).2 = Some d
       ∧ isPasswordCorrect sample_compare d "secret123" = Normal true.
Proof.
  apply (refresh_token_save_keeps_password ascii_toLowerCase sample_hash sample_compare
           sample_compare_hash (Salted "salt") (Salted "pepper")
           1700000000 1700000600 alice_id alice_input ∅ alice alice_db "r1"
           (saved (doc_set ascii_toLowerCase "refreshToken" "r1" alice)) _ "secret123");
    vm_compute; reflexivity.
Defined.

End User.
